(** * v8worker: the binding between a host and the contexts of one V8 isolate

    A shallow embedding of [binding.cc].  The C++ file glues three parties:
    the host (Go, reached through [cb] / [req_cb] function pointers), the
    worker with its registry of contexts, and guest code running inside V8.

    The engine itself is external: it is consumed through the [Runtime]
    class below (what a script or a function does when it runs, how a value
    converts to text, what the host callback replies, where [new] puts a
    record).  Everything proved here holds for every such runtime.

    Conventions.
    - [string] stands for a C string: the characters before the NUL.
    - [Persistent<T>] and [Local<T>] are modelled by their referent,
      [None] being the empty handle.
    - [int] / [int32_t] are [Z]; the one arithmetic operation of the file,
      [w->contextIndex++], is undefined at [INT32_MAX] and faults there.
    - [assert] is live (no NDEBUG); a failed assertion, a null or dangling
      pointer and an empty handle that is dereferenced all end the process:
      they are the [Crash] outcomes of [result].
    - Lockers, handle scopes and isolate scopes do nothing in a sequential
      model and are left out; so is [assert(w->isolate == isolate)], there
      being one isolate and one worker.
    - The host callbacks [cb] and [req_cb] do not call back into the
      worker while they run.
    - A function belongs to the context it was created in and runs with
      that context as the current one, whichever context its caller has
      entered.  Nothing in the binding carries an object from one context
      to another (messages are C strings), so the functions guest code
      holds are those of its own context: a function value that reaches a
      native was created in the calling context, and the handle the native
      keeps records that context.  The receiver given to [Function::Call]
      is not among the things guest code does here.
    - A [const char*] result is the string it points at while that string
      is alive ([worker_last_exception]); where the function returns
      [c_str()] of one of its own locals the result is a dangling pointer
      ([c_str] below). *)

From Stdlib Require Import Ascii.
From stdpp Require Import gmap strings list fin_maps pretty.

Local Open Scope Z_scope.

(** ** Outcomes *)

Inductive fault :=
| AssertionFailed
| NullDereference
| UseAfterFree
| EmptyHandle
| SignedOverflow.

Inductive result (A : Type) :=
| Ok (a : A)
| Crash (f : fault).
Arguments Ok {A} a.
Arguments Crash {A} f.

Global Instance result_ret : MRet result := λ A a, Ok a.
Global Instance result_bind : MBind result := λ A B k r,
  match r with
  | Ok a => k a
  | Crash f => Crash f
  end.
Global Instance result_fmap : FMap result := λ A B g r,
  match r with
  | Ok a => Ok (g a)
  | Crash f => Crash f
  end.

(** [assert(b)] *)
Definition assert (b : bool) : result unit :=
  if b then Ok tt else Crash AssertionFailed.

(** ** Text *)

Definition newline : string := String "010"%char EmptyString.

(** [for (int i = lo; i < hi; i++) body] *)
Definition for_loop {A} (lo hi : Z) (body : Z → A → A) (a : A) : A :=
  foldl (λ acc i, body i acc) a (seqZ lo (hi - lo)).

Fixpoint string_repeat (n : nat) (s : string) : string :=
  match n with
  | O => ""
  | S n' => s +:+ string_repeat n' s
  end.

(** [snprintf(scratch, size, "%i", n)]: at most [size - 1] characters of the
    decimal rendering are kept. *)
Definition snprintf_i (size : nat) (n : Z) : string :=
  String.substring 0 (size - 1) (pretty n).

Definition INT32_MIN : Z := - 2 ^ 31.
Definition INT32_MAX : Z := 2 ^ 31 - 1.
Definition is_int32 (n : Z) : Prop := INT32_MIN ≤ n ≤ INT32_MAX.

(** A [const char*] as a function returns it.  [Live s] points at the
    characters [s] of a string that outlives the call.  [Dangling s] points
    into the buffer of a [std::string] that held [s] and was destroyed when
    the function returned: the characters are gone, and reading through the
    pointer is undefined. *)
Inductive c_str :=
| Live (s : string)
| Dangling (s : string).

(** Reading the characters a [const char*] points at. *)
Definition c_str_read (p : c_str) : result string :=
  match p with
  | Live s => Ok s
  | Dangling _ => Crash UseAfterFree
  end.

(** ** Values of the guest language *)

Definition fn := nat.

(** The five callbacks the binding hands to [FunctionTemplate::New]. *)
Inductive native := NPrint | NRecv | NRecvSync | NSend | NSendSync.

Inductive function :=
| FGuest (f : fn)
| FNative (i : native).

Inductive value :=
| VUndefined
| VInt32 (n : Z)
| VString (s : string)
| VFunction (f : function).

Definition IsFunction (v : value) : bool :=
  match v with VFunction _ => true | _ => false end.
Definition IsString (v : value) : bool :=
  match v with VString _ => true | _ => false end.

(** [String::Utf8Value]: [None] is a failed conversion ([*value == NULL],
    [length() == 0]). *)
Definition Utf8Value := option string.

Definition Utf8Value_length (u : Utf8Value) : nat :=
  match u with
  | Some s => String.length s
  | None => O
  end.

(** Extracts a C string from a V8 Utf8Value. *)
Definition ToCString (value : Utf8Value) : string :=
  match value with
  | Some s => s
  | None => "<string conversion failed>"
  end.

(** What a [TryCatch] that has caught gives access to. *)
Record Message := {
  ResourceName : value;
  GetLineNumber : Z;
  GetSourceLine : value;
  GetStartColumn : Z;
  GetEndColumn : Z;
}.

Record TryCatch := {
  Exception : value;
  GetMessage : option Message;
  StackTrace : option value;
}.

(** How a run of guest code ends: [script->Run()] and [Function::Call]
    return a value, or the empty handle with the exception left in the
    enclosing [TryCatch]. *)
Inductive completion :=
| Normal (v : value)
| Thrown (try_catch : TryCatch).

(** ** Guest code

    Guest code is opaque except where it meets the binding: it assigns,
    deletes and reads globals of its own scope and calls the five natives.  A guest
    program is the tree of these interactions; [JS] is whatever state the
    engine keeps for the guest between runs. *)

Inductive guest (JS : Type) :=
| GDone (js : JS) (c : completion)
| GSetGlobal (name : string) (v : value) (k : guest JS)
| GDeleteGlobal (name : string) (k : guest JS)
| GGetGlobal (name : string) (k : value → guest JS)
| GCallNative (i : native) (args : list value) (k : value → guest JS).
Arguments GDone {JS} js c.
Arguments GSetGlobal {JS} name v k.
Arguments GDeleteGlobal {JS} name k.
Arguments GGetGlobal {JS} name k.
Arguments GCallNative {JS} i args k.

(** ** Records of the binding *)

Definition addr := positive.
Definition scope_id := positive.
Definition ptr := Z.

(** A function object, as a [Local<Function>] or a [Persistent<Function>]
    refers to it: the context it was created in, and which function of that
    context it is. *)
Record JSFunction := {
  CreationContext : scope_id;
  code : function;
}.

(** Modelled from the spec: the type [worker_recv_cb] of [binding.h], which
    is not among the sources - the host's async callback reference, called
    with a message and the context's host data pointer.  A callback is
    named by a number. *)
Definition worker_recv_cb := nat.

(** Modelled from the spec: the type [worker_recvSync_cb] of [binding.h] -
    the host's sync callback reference, called like the async one and
    returning the reply string. *)
Definition worker_recvSync_cb := nat.

(** [v8::PropertyAttribute] *)
Definition PropertyAttribute := Z.
Definition None_ : PropertyAttribute := 0.
Definition ReadOnly : PropertyAttribute := 1.
Definition DontEnum : PropertyAttribute := 2.
Definition DontDelete : PropertyAttribute := 4.

Record property := {
  p_value : value;
  p_attributes : PropertyAttribute;
}.

Definition is_read_only (p : property) : bool :=
  negb (Z.land (p_attributes p) ReadOnly =? 0).
Definition is_dont_delete (p : property) : bool :=
  negb (Z.land (p_attributes p) DontDelete =? 0).

Record context_s := {
  id : Z;
  data : ptr;
  context : option scope_id;
  cb : worker_recv_cb;
  req_cb : worker_recvSync_cb;
  recv : option JSFunction;
  recv_sync_handler : option JSFunction;
}.

Record worker_s := {
  w_data : ptr;
  contextIndex : Z;
  last_exception : string;
  contexts : gmap Z addr;
}.

(** What reaches the host through the two callbacks. *)
Inductive host_call :=
| HostRecv (f : worker_recv_cb) (msg : string) (d : ptr)
| HostRecvSync (f : worker_recvSync_cb) (msg : string) (d : ptr).

(** The isolate: one global object per context, and the guest's state. *)
Record Isolate (JS : Type) := {
  globals : gmap scope_id (gmap string property);
  js : JS;
}.
Arguments globals {JS} i.
Arguments js {JS} i.

Record machine (JS : Type) := {
  worker : worker_s;
  heap : gmap addr context_s;
  isolate : Isolate JS;
  stdout : string;
  host : list host_call;
}.
Arguments worker {JS} m.
Arguments heap {JS} m.
Arguments isolate {JS} m.
Arguments stdout {JS} m.
Arguments host {JS} m.

(** ** The environment of the binding *)

Class Runtime (JS : Type) := {
  (** [Script::Compile(source, &origin)]: the script (what it does when it
      is run) or the exception the compiler raised. *)
  Script_Compile : JS → string → string → guest JS + TryCatch;
  (** A guest function applied to one string. *)
  Function_Call : JS → fn → string → guest JS;
  (** Conversions of values that are not already of the target type. *)
  ToString : value → Utf8Value;
  ToInt32 : value → Z;
  (** The reply of the host's synchronous callback, given what the host
      has seen so far. *)
  host_reply : list host_call → worker_recvSync_cb → string → ptr → string;
  (** [new(context)]: an address that is not live. *)
  operator_new : gset addr → addr;
  operator_new_fresh : ∀ live, operator_new live ∉ live;
}.

(** ** State updates *)

Definition set_last_exception (s : string) (w : worker_s) : worker_s :=
  {| w_data := w_data w; contextIndex := contextIndex w;
     last_exception := s; contexts := contexts w |}.

Definition set_recv (f : option JSFunction) (c : context_s) : context_s :=
  {| id := id c; data := data c; context := context c; cb := cb c;
     req_cb := req_cb c; recv := f;
     recv_sync_handler := recv_sync_handler c |}.

Definition set_recv_sync_handler (f : option JSFunction) (c : context_s)
    : context_s :=
  {| id := id c; data := data c; context := context c; cb := cb c;
     req_cb := req_cb c; recv := recv c; recv_sync_handler := f |}.

Definition set_context (s : option scope_id) (c : context_s) : context_s :=
  {| id := id c; data := data c; context := s; cb := cb c;
     req_cb := req_cb c; recv := recv c;
     recv_sync_handler := recv_sync_handler c |}.

Section Binding.
Context {JS : Type} `{!Runtime JS}.

Definition with_worker (f : worker_s → worker_s) (m : machine JS) : machine JS :=
  {| worker := f (worker m); heap := heap m; isolate := isolate m;
     stdout := stdout m; host := host m |}.

Definition with_heap (f : gmap addr context_s → gmap addr context_s)
    (m : machine JS) : machine JS :=
  {| worker := worker m; heap := f (heap m); isolate := isolate m;
     stdout := stdout m; host := host m |}.

Definition with_isolate (f : Isolate JS → Isolate JS) (m : machine JS) : machine JS :=
  {| worker := worker m; heap := heap m; isolate := f (isolate m);
     stdout := stdout m; host := host m |}.

Definition with_stdout (f : string → string) (m : machine JS) : machine JS :=
  {| worker := worker m; heap := heap m; isolate := isolate m;
     stdout := f (stdout m); host := host m |}.

Definition with_host (f : list host_call → list host_call) (m : machine JS) : machine JS :=
  {| worker := worker m; heap := heap m; isolate := isolate m;
     stdout := stdout m; host := f (host m) |}.

Definition set_js (s : JS) (i : Isolate JS) : Isolate JS :=
  {| globals := globals i; js := s |}.

Definition set_globals (g : gmap scope_id (gmap string property))
    (i : Isolate JS) : Isolate JS :=
  {| globals := g; js := js i |}.

(** ** Conversions *)

(** [String::Utf8Value str(handle)] *)
Definition Utf8Value_new (handle : option value) : Utf8Value :=
  match handle with
  | None => None
  | Some (VString s) => Some s
  | Some v => ToString v
  end.

(** [value->Int32Value()] *)
Definition Int32Value (v : value) : Z :=
  match v with
  | VInt32 n => n
  | _ => ToInt32 v
  end.

(** ** The exception reporter *)

Definition ExceptionString (try_catch : TryCatch) : string :=
  let out := "" in
  let scratchSize := 20%nat in
  let exception := Utf8Value_new (Some (Exception try_catch)) in
  let exception_string := ToCString exception in
  match GetMessage try_catch with
  | None =>
      (* V8 didn't provide any extra information about this error; just
         print the exception. *)
      let out := out +:+ exception_string in
      out +:+ newline
  | Some message =>
      (* Print (filename):(line number) *)
      let filename := Utf8Value_new (Some (ResourceName message)) in
      let filename_string := ToCString filename in
      let linenum := GetLineNumber message in
      let scratch := snprintf_i scratchSize linenum in
      let out := out +:+ filename_string in
      let out := out +:+ ":" in
      let out := out +:+ scratch in
      let out := out +:+ newline in
      (* Print line of source code. *)
      let sourceline := Utf8Value_new (Some (GetSourceLine message)) in
      let sourceline_string := ToCString sourceline in
      let out := out +:+ sourceline_string in
      let out := out +:+ newline in
      (* Print wavy underline. *)
      let start := GetStartColumn message in
      let out := for_loop 0 start (λ _ out, out +:+ " ") out in
      let end_ := GetEndColumn message in
      let out := for_loop start end_ (λ _ out, out +:+ "^") out in
      let out := out +:+ newline in
      let stack_trace := Utf8Value_new (StackTrace try_catch) in
      if decide (0 < Utf8Value_length stack_trace)%nat then
        let stack_trace_string := ToCString stack_trace in
        let out := out +:+ stack_trace_string in
        out +:+ newline
      else
        let out := out +:+ exception_string in
        out +:+ newline
  end.

(** ** Global objects *)

(** [ctx->Global()]: a context the isolate records nothing for has no
    properties. *)
Definition Global (m : machine JS) (ctx : scope_id) : gmap string property :=
  default ∅ (globals (isolate m) !! ctx).

(** [object->Get(name)] *)
Definition Object_Get (o : gmap string property) (name : string) : value :=
  match o !! name with
  | Some p => p_value p
  | None => VUndefined
  end.

(** The guest's assignment [name = v]: a read-only property keeps its value
    (the assignment is ignored), any other property takes the new one. *)
Definition Object_Set (o : gmap string property) (name : string) (v : value)
    : gmap string property :=
  match o !! name with
  | Some p =>
      if is_read_only p then o
      else <[name := {| p_value := v; p_attributes := p_attributes p |}]> o
  | None => <[name := {| p_value := v; p_attributes := None_ |}]> o
  end.

(** The guest's [delete name]: a property goes unless it is marked
    [DontDelete]. *)
Definition Object_Delete (o : gmap string property) (name : string)
    : gmap string property :=
  match o !! name with
  | Some p => if is_dont_delete p then o else delete name o
  | None => o
  end.

Definition assign_global (ctx : scope_id) (name : string) (v : value)
    (m : machine JS) : machine JS :=
  with_isolate
    (λ i, set_globals (<[ctx := Object_Set (Global m ctx) name v]> (globals i)) i) m.

Definition delete_global (ctx : scope_id) (name : string)
    (m : machine JS) : machine JS :=
  with_isolate
    (λ i, set_globals (<[ctx := Object_Delete (Global m ctx) name]> (globals i)) i) m.

(** [ObjectTemplate::New] and [Template::Set(name, value)], whose third
    parameter defaults to [PropertyAttribute::None]. *)
Definition ObjectTemplate_New : gmap string property := ∅.

Definition Template_Set (name : string) (v : value)
    (t : gmap string property) : gmap string property :=
  <[name := {| p_value := v; p_attributes := None_ |}]> t.

(** [Context::New(isolate, NULL, global)] *)
Definition Context_New (global : gmap string property) (i : Isolate JS)
    : scope_id * Isolate JS :=
  let s := fresh (dom (globals i)) in
  (s, set_globals (<[s := global]> (globals i)) i).

(** ** Pointers and handles *)

(** Reading through a [context*]. *)
Definition deref (m : machine JS) (c : option addr) : result context_s :=
  match c with
  | None => Crash NullDereference
  | Some p =>
      match heap m !! p with
      | Some r => Ok r
      | None => Crash UseAfterFree
      end
  end.

(** Writing a field through a [context*]. *)
Definition update (c : option addr) (f : context_s → context_s)
    (m : machine JS) : result (machine JS) :=
  r ← deref m c;
  match c with
  | Some p => Ok (with_heap (<[p := f r]>) m)
  | None => Crash NullDereference
  end.

(** [Context::Scope context_scope(Local<Context>::New(isolate, persistent))] *)
Definition Context_Scope (persistent : option scope_id) : result scope_id :=
  match persistent with
  | Some s => Ok s
  | None => Crash EmptyHandle
  end.

(** [Local<Function>::Cast(v)], after [assert(v->IsFunction())], of a
    value that code running in [ctx] passed: the function object, which
    belongs to [ctx]. *)
Definition Function_Cast (ctx : scope_id) (v : value) : result JSFunction :=
  match v with
  | VFunction f => Ok {| CreationContext := ctx; code := f |}
  | _ => Crash AssertionFailed
  end.

(** ** The natives *)

Record FunctionCallbackInfo := {
  GetCurrentContext : scope_id;
  arguments : list value;
}.

(** [args[i]]: undefined past the end. *)
Definition arg (args : FunctionCallbackInfo) (i : nat) : value :=
  default VUndefined (arguments args !! i).

(** [w->contexts[value]], with [value] read from the calling scope.  A key
    the map does not hold yields the null pointer ([operator[]] also enters
    it in the map; every path then fails an assertion or dereferences the
    pointer, so that entry is never seen). *)
Definition context_of_scope (m : machine JS) (ctx : scope_id) : option addr :=
  let value := Int32Value (Object_Get (Global m ctx) "$context") in
  contexts (worker m) !! value.

Definition calling_context (args : FunctionCallbackInfo) (m : machine JS)
    : option addr :=
  let ctx := GetCurrentContext args in
  context_of_scope m ctx.

Definition Print (args : FunctionCallbackInfo) (m : machine JS)
    : result (machine JS * value) :=
  let step := λ (st : bool * string) (a : value),
    let '(first, out) := st in
    let out := if first then out else out +:+ " " in
    let str := Utf8Value_new (Some a) in
    let cstr := ToCString str in
    (false, out +:+ cstr) in
  let '(_, out) := foldl step (true, "") (arguments args) in
  Ok (with_stdout (λ o, o +:+ out +:+ newline) m, VUndefined).

(** sets the recv callback. *)
Definition Recv (args : FunctionCallbackInfo) (m : machine JS)
    : result (machine JS * value) :=
  let c := calling_context args m in
  let v := arg args 0 in
  _ ← assert (IsFunction v);
  func ← Function_Cast (GetCurrentContext args) v;
  m ← update c (set_recv (Some func)) m;
  Ok (m, VUndefined).

Definition RecvSync (args : FunctionCallbackInfo) (m : machine JS)
    : result (machine JS * value) :=
  let c := calling_context args m in
  let v := arg args 0 in
  _ ← assert (IsFunction v);
  func ← Function_Cast (GetCurrentContext args) v;
  m ← update c (set_recv_sync_handler (Some func)) m;
  Ok (m, VUndefined).

(** Called from javascript. Must route message to golang. *)
Definition Send (args : FunctionCallbackInfo) (m : machine JS)
    : result (machine JS * value) :=
  let c := calling_context args m in
  let v := arg args 0 in
  _ ← assert (IsString v);
  let str := Utf8Value_new (Some v) in
  let msg := ToCString str in
  r ← deref m c;
  Ok (with_host (λ h, h ++ [HostRecv (cb r) msg (data r)]) m, VUndefined).

(** Called from javascript using $request.  Must route message (string) to
    golang and send back message (string) as return value. *)
Definition SendSync (args : FunctionCallbackInfo) (m : machine JS)
    : result (machine JS * value) :=
  let c := calling_context args m in
  let v := arg args 0 in
  _ ← assert (IsString v);
  let str := Utf8Value_new (Some v) in
  let msg := ToCString str in
  r ← deref m c;
  let returnMsg := host_reply (host m) (req_cb r) msg (data r) in
  let m := with_host (λ h, h ++ [HostRecvSync (req_cb r) msg (data r)]) m in
  let returnV := VString returnMsg in
  Ok (m, returnV).

Definition call_native (i : native)
    : FunctionCallbackInfo → machine JS → result (machine JS * value) :=
  match i with
  | NPrint => Print
  | NRecv => Recv
  | NRecvSync => RecvSync
  | NSend => Send
  | NSendSync => SendSync
  end.

(** ** Running guest code *)

Fixpoint run_guest (ctx : scope_id) (g : guest JS) (m : machine JS)
    : result (machine JS * completion) :=
  match g with
  | GDone s c => Ok (with_isolate (set_js s) m, c)
  | GSetGlobal name v k => run_guest ctx k (assign_global ctx name v m)
  | GDeleteGlobal name k => run_guest ctx k (delete_global ctx name m)
  | GGetGlobal name k => run_guest ctx (k (Object_Get (Global m ctx) name)) m
  | GCallNative i args k =>
      r ← call_native i {| GetCurrentContext := ctx; arguments := args |} m;
      run_guest ctx (k r.2) r.1
  end.

(** [f->Call(context->Global(), 1, args)] with [args[0]] the string [msg]
    and the global object of [context] as receiver.  The function runs in
    the context it was created in, not in [context]: that is the scope its
    code reads [$context] from, and the one the natives it calls see as
    the current one. *)
Definition Call (context : scope_id) (f : JSFunction) (msg : string)
    (m : machine JS) : result (machine JS * completion) :=
  let ctx := CreationContext f in
  match code f with
  | FGuest g => run_guest ctx (Function_Call (js (isolate m)) g msg) m
  | FNative i =>
      r ← call_native i {| GetCurrentContext := ctx; arguments := [VString msg] |} m;
      Ok (r.1, Normal r.2)
  end.

(** ** The host's entry points *)

Definition worker_new (data : ptr) (s : JS) : machine JS :=
  {| worker := {| w_data := data; contextIndex := 0;
                  last_exception := ""; contexts := ∅ |};
     heap := ∅;
     isolate := {| globals := ∅; js := s |};
     stdout := "";
     host := [] |}.

Definition worker_last_exception (m : machine JS) : string :=
  last_exception (worker m).

Definition worker_load (c : addr) (name_s source_s : string) (m : machine JS)
    : result (machine JS * Z) :=
  r ← deref m (Some c);
  context ← Context_Scope (context r);
  match Script_Compile (js (isolate m)) source_s name_s with
  | inr try_catch =>
      Ok (with_worker (set_last_exception (ExceptionString try_catch)) m, 1)
  | inl script =>
      res ← run_guest context script m;
      match res.2 with
      | Thrown try_catch =>
          Ok (with_worker (set_last_exception (ExceptionString try_catch)) res.1, 2)
      | Normal _ => Ok (res.1, 0)
      end
  end.

(** Called from golang. Must route message to javascript lang.
    non-zero return value indicates error. check worker_last_exception(). *)
Definition worker_send (c : addr) (msg : string) (m : machine JS)
    : result (machine JS * Z) :=
  r ← deref m (Some c);
  context ← Context_Scope (context r);
  match recv r with
  | None => Ok (with_worker (set_last_exception "$recv not called") m, 1)
  | Some recv =>
      res ← Call context recv msg m;
      match res.2 with
      | Thrown try_catch =>
          Ok (with_worker (set_last_exception (ExceptionString try_catch)) res.1, 2)
      | Normal _ => Ok (res.1, 0)
      end
  end.

(** Called from golang. Must route message to javascript lang.
    It will call the $recv_sync_handler callback function and return its
    string value.  No [TryCatch] is set up here: when the handler throws,
    [response_value] is the empty handle and [response_value->IsString()]
    dereferences it.  [out] is a local of the function and every return is
    [out.c_str()]: the pointer handed back is into a string that is
    destroyed by the return. *)
Definition worker_sendSync (c : addr) (msg : string) (m : machine JS)
    : result (machine JS * c_str) :=
  let out := "" in
  r ← deref m (Some c);
  context ← Context_Scope (context r);
  match recv_sync_handler r with
  | None =>
      let out := out +:+ "err: $recvSync not called" in
      Ok (m, Dangling out)
  | Some recv_sync_handler =>
      res ← Call context recv_sync_handler msg m;
      match res.2 with
      | Thrown _ => Crash EmptyHandle
      | Normal response_value =>
          let out :=
            if IsString response_value then
              let response := Utf8Value_new (Some response_value) in
              out +:+ ToCString response
            else out +:+ "err: non-string return value" in
          Ok (res.1, Dangling out)
      end
  end.

Definition context_new (cb : worker_recv_cb) (recvSync_cb : worker_recvSync_cb)
    (data : ptr) (m : machine JS) : result (machine JS * addr) :=
  let w := worker m in
  let global := ObjectTemplate_New in
  let global := Template_Set "$context" (VInt32 (contextIndex w)) global in
  let global := Template_Set "$print" (VFunction (FNative NPrint)) global in
  let global := Template_Set "$recv" (VFunction (FNative NRecv)) global in
  let global := Template_Set "$send" (VFunction (FNative NSend)) global in
  let global := Template_Set "$sendSync" (VFunction (FNative NSendSync)) global in
  let global := Template_Set "$recvSync" (VFunction (FNative NRecvSync)) global in
  let '(localContext, isolate') := Context_New global (isolate m) in
  let c := operator_new (dom (heap m)) in
  let r := {| id := contextIndex w; data := data;
              context := Some localContext;
              cb := cb; req_cb := recvSync_cb;
              recv := None; recv_sync_handler := None |} in
  (* std::map::insert keeps the entry of a key that is already there *)
  let contexts' :=
    match contexts w !! contextIndex w with
    | Some _ => contexts w
    | None => <[contextIndex w := c]> (contexts w)
    end in
  if decide (contextIndex w = INT32_MAX) then Crash SignedOverflow
  else
    Ok ({| worker := {| w_data := w_data w;
                        contextIndex := contextIndex w + 1;
                        last_exception := last_exception w;
                        contexts := contexts' |};
           heap := <[c := r]> (heap m);
           isolate := isolate';
           stdout := stdout m;
           host := host m |}, c).

(** [c->context.Reset(); delete(c);] - the worker and its registry are not
    reachable from [c] and stay as they are. *)
Definition context_dispose (c : addr) (m : machine JS) : result (machine JS) :=
  m ← update (Some c) (set_context None) m;
  Ok (with_heap (delete c) m).

(** ** Sequences of calls *)

(** Creating and disposing contexts. *)
Inductive lifecycle_op :=
| CreateContext (f : worker_recv_cb) (g : worker_recvSync_cb) (d : ptr)
| DisposeContext (c : addr).

(** Runs the calls in order; the result lists, oldest first, each context
    that was created with the id found in its record. *)
Fixpoint run_lifecycle (ops : list lifecycle_op) (m : machine JS)
    : result (machine JS * list (addr * Z)) :=
  match ops with
  | [] => Ok (m, [])
  | CreateContext f g d :: ops' =>
      r ← context_new f g d m;
      c ← deref r.1 (Some r.2);
      rest ← run_lifecycle ops' r.1;
      Ok (rest.1, (r.2, id c) :: rest.2)
  | DisposeContext c :: ops' =>
      m' ← context_dispose c m;
      run_lifecycle ops' m'
  end.

(** The calls a host makes on a worker. *)
Inductive host_op :=
| NewContext (f : worker_recv_cb) (g : worker_recvSync_cb) (d : ptr)
| Dispose (c : addr)
| Load (c : addr) (name source : string)
| SendMsg (c : addr) (msg : string)
| SendSyncMsg (c : addr) (msg : string)
| LastException.

Inductive host_result :=
| Created (c : addr)
| Disposed
| Status (z : Z)
| Reply (s : string)
| SyncReply (p : c_str).

Definition host_step (op : host_op) (m : machine JS)
    : result (machine JS * host_result) :=
  match op with
  | NewContext f g d => r ← context_new f g d m; Ok (r.1, Created r.2)
  | Dispose c => m' ← context_dispose c m; Ok (m', Disposed)
  | Load c name source => r ← worker_load c name source m; Ok (r.1, Status r.2)
  | SendMsg c msg => r ← worker_send c msg m; Ok (r.1, Status r.2)
  | SendSyncMsg c msg => r ← worker_sendSync c msg m; Ok (r.1, SyncReply r.2)
  | LastException => Ok (m, Reply (worker_last_exception m))
  end.

Fixpoint run_host (ops : list host_op) (m : machine JS)
    : result (machine JS * list host_result) :=
  match ops with
  | [] => Ok (m, [])
  | op :: ops' =>
      r ← host_step op m;
      rest ← run_host ops' r.1;
      Ok (rest.1, r.2 :: rest.2)
  end.

(** A call that reports failure through its status. *)
Definition failed (r : host_result) : bool :=
  match r with
  | Status z => negb (z =? 0)
  | _ => false
  end.

(** Live records carry pairwise different ids, all below the counter. *)
Definition ids_in_use (m : machine JS) : Prop :=
  (∀ p r, heap m !! p = Some r → id r < contextIndex (worker m))
  ∧ (∀ p q rp rq, heap m !! p = Some rp → heap m !! q = Some rq →
       id rp = id rq → p = q).

(** ** Guest code that leaves its identity alone *)

Fixpoint keeps_identity (g : guest JS) : Prop :=
  match g with
  | GDone _ _ => True
  | GSetGlobal name _ k => name ≠ "$context" ∧ keeps_identity k
  | GDeleteGlobal name k => name ≠ "$context" ∧ keeps_identity k
  | GGetGlobal _ k => ∀ v, keeps_identity (k v)
  | GCallNative _ _ k => ∀ v, keeps_identity (k v)
  end.

(** Overwriting the two handler slots of the record at [p]. *)
Definition set_handlers (h : option JSFunction * option JSFunction)
    (c : context_s) : context_s :=
  set_recv_sync_handler h.2 (set_recv h.1 c).

Definition with_handlers (p : addr)
    (h : option JSFunction * option JSFunction) (m : machine JS)
    : machine JS :=
  with_heap (alter (set_handlers h) p) m.

(** Two records that differ at most in their handler slots. *)
Definition same_but_handlers (a b : context_s) : Prop :=
  id a = id b ∧ data a = data b ∧ context a = context b
  ∧ cb a = cb b ∧ req_cb a = req_cb b.

(** ** States a host can reach *)

(** The registry holds exactly the ids below the counter. *)
Definition registry_dense (m : machine JS) : Prop :=
  ∀ i, is_Some (contexts (worker m) !! i) ↔ 0 ≤ i < contextIndex (worker m).

(** Every live record is entered in the registry under its own id and
    holds a scope of the isolate. *)
Definition registered (m : machine JS) : Prop :=
  ∀ p r, heap m !! p = Some r →
    contexts (worker m) !! id r = Some p
    ∧ ∃ s, context r = Some s ∧ is_Some (globals (isolate m) !! s).

Definition well_formed (m : machine JS) : Prop :=
  0 ≤ contextIndex (worker m) ≤ INT32_MAX
  ∧ registry_dense m
  ∧ registered m.

(** ** What guest code can do to the state *)

(** A record after guest code has run: the same but for the handler slots,
    and a slot that held a handler still holds one. *)
Definition re_registered (a b : context_s) : Prop :=
  same_but_handlers a b
  ∧ (is_Some (recv a) → is_Some (recv b))
  ∧ (is_Some (recv_sync_handler a) → is_Some (recv_sync_handler b)).

Definition records_re_registered (h h' : gmap addr context_s) : Prop :=
  ∀ p, match h !! p, h' !! p with
       | Some a, Some b => re_registered a b
       | None, None => True
       | _, _ => False
       end.

Definition guest_effect (m m' : machine JS) : Prop :=
  worker m' = worker m
  ∧ records_re_registered (heap m) (heap m')
  ∧ (∀ s, is_Some (globals (isolate m) !! s) → is_Some (globals (isolate m') !! s))
  ∧ (∃ out, stdout m' = stdout m +:+ out)
  ∧ (∃ calls, host m' = host m ++ calls).

(** The global object [context_new] builds for the context with id [n]. *)
Definition global_template (n : Z) : gmap string property :=
  Template_Set "$recvSync" (VFunction (FNative NRecvSync))
    (Template_Set "$sendSync" (VFunction (FNative NSendSync))
       (Template_Set "$send" (VFunction (FNative NSend))
          (Template_Set "$recv" (VFunction (FNative NRecv))
             (Template_Set "$print" (VFunction (FNative NPrint))
                (Template_Set "$context" (VInt32 n) ObjectTemplate_New))))).

(** How [worker_send] turns the outcome of the handler into its own. *)
Definition send_status (res : result (machine JS * completion))
    : result (machine JS * Z) :=
  match res with
  | Ok (m, Thrown try_catch) =>
      Ok (with_worker (set_last_exception (ExceptionString try_catch)) m, 2)
  | Ok (m, Normal _) => Ok (m, 0)
  | Crash f => Crash f
  end.

End Binding.

(** ** The array buffer allocator

    The C heap as the allocator sees it: the live blocks by their base
    address, each with its bytes.  [malloc] is the C library's: it returns
    no block ([NULL]) or a block of the requested length at a base that is
    neither [NULL] nor live, with whatever bytes were there. *)

Definition c_heap := gmap Z (list Z).
Definition NULL : Z := 0.

Section Allocator.
Variable malloc : c_heap → Z → option (Z * list Z).

(** [memset(data, c, length)] on the block at [data]. *)
Definition memset (data : Z) (c : Z) (length : Z) (h : c_heap) : c_heap :=
  alter (λ bytes, for_loop 0 length (λ i b, <[Z.to_nat i := c]> b) bytes) data h.

(** [free(data)]: nothing for [NULL]. *)
Definition free (data : Z) (h : c_heap) : c_heap :=
  if decide (data = NULL) then h else delete data h.

Definition AllocateUninitialized (length : Z) (h : c_heap) : Z * c_heap :=
  match malloc h length with
  | Some (base, bytes) => (base, <[base := bytes]> h)
  | None => (NULL, h)
  end.

Definition Allocate (length : Z) (h : c_heap) : Z * c_heap :=
  let '(data, h) := AllocateUninitialized length h in
  if decide (data = NULL) then (data, h) else (data, memset data 0 length h).

Definition Free (data : Z) (length : Z) (h : c_heap) : c_heap :=
  free data h.

(** What the C library promises of one call of [malloc]. *)
Definition malloc_ok (h : c_heap) (length : Z) : Prop :=
  ∀ base bytes, malloc h length = Some (base, bytes) →
    base ≠ NULL ∧ h !! base = None ∧ List.length bytes = Z.to_nat length.

End Allocator.

(** A [malloc] for examples: the block goes above every live one and
    comes filled with the byte 170. *)
Definition demo_malloc (h : c_heap) (length : Z) : option (Z * list Z) :=
  if decide (0 ≤ length ≤ 64) then
    Some (1 + foldr Z.max 0 (elements (dom h)), replicate (Z.to_nat length) 170)
  else None.

(** ** A small runtime

    A concrete engine and host, used to run the model on examples: it
    knows a handful of scripts by their source text and five functions by
    number, and counts the runs it has finished. *)

Definition demo_syntax_error (name source : string) : TryCatch :=
  {| Exception := VString "SyntaxError: Unexpected token ;";
     GetMessage := Some {| ResourceName := VString name;
                           GetLineNumber := 1;
                           GetSourceLine := VString source;
                           GetStartColumn := 4;
                           GetEndColumn := 7 |};
     StackTrace := None |}.

Definition demo_boom : TryCatch :=
  {| Exception := VString "boom";
     GetMessage := None;
     StackTrace := None |}.

Definition demo_return (s : nat) (v : value) : guest nat :=
  GDone (S s) (Normal v).

Definition demo_compile (s : nat) (source name : string) : guest nat + TryCatch :=
  if decide (source = "var = ;") then inr (demo_syntax_error name source)
  else if decide (source = "throw 'boom'") then inl (GDone (S s) (Thrown demo_boom))
  else if decide (source = "$recv(f1); $recvSync(f2)") then
    inl (GCallNative NRecv [VFunction (FGuest 1%nat)] (λ _,
         GCallNative NRecvSync [VFunction (FGuest 2%nat)] (λ _,
         demo_return s VUndefined)))
  else if decide (source = "$recv(f3); $recvSync(f4)") then
    inl (GCallNative NRecv [VFunction (FGuest 3%nat)] (λ _,
         GCallNative NRecvSync [VFunction (FGuest 4%nat)] (λ _,
         demo_return s VUndefined)))
  else if decide (source = "$context = 1; $recv(f3)") then
    inl (GSetGlobal "$context" (VInt32 1) (
         GCallNative NRecv [VFunction (FGuest 3%nat)] (λ _,
         demo_return s VUndefined)))
  else if decide (source = "$context = 7") then
    inl (GSetGlobal "$context" (VInt32 7) (demo_return s VUndefined))
  else if decide (source = "x = 1; $recv(f1)") then
    inl (GSetGlobal "x" (VInt32 1) (
         GCallNative NRecv [VFunction (FGuest 1%nat)] (λ _,
         demo_return s VUndefined)))
  else if decide (source = "$recv(42)") then
    inl (GCallNative NRecv [VInt32 42] (λ _, demo_return s VUndefined))
  else if decide (source = "$recvSync(f3)") then
    inl (GCallNative NRecvSync [VFunction (FGuest 3%nat)] (λ _,
         demo_return s VUndefined))
  else if decide (source = "$context = 0; $recv(f1); $context = 1") then
    inl (GSetGlobal "$context" (VInt32 0) (
         GCallNative NRecv [VFunction (FGuest 1%nat)] (λ _,
         GSetGlobal "$context" (VInt32 1) (demo_return s VUndefined))))
  else inl (demo_return s VUndefined).

Definition demo_call (s : nat) (f : fn) (msg : string) : guest nat :=
  match f with
  | 1%nat => GCallNative NSend [VString msg] (λ _, demo_return s (VInt32 7))
  | 2%nat => demo_return s (VString ("re: " +:+ msg))
  | 3%nat => GDone (S s) (Thrown demo_boom)
  | 4%nat => demo_return s (VInt32 5)
  | _ => demo_return s VUndefined
  end.

Definition demo_to_string (v : value) : Utf8Value :=
  match v with
  | VUndefined => Some "undefined"
  | VInt32 n => Some (pretty n)
  | VString s => Some s
  | VFunction _ => Some "function () { [native code] }"
  end.

Definition demo_to_int32 (v : value) : Z :=
  match v with
  | VInt32 n => n
  | _ => 0
  end.

#[export] Instance demo_runtime : Runtime nat := {|
  Script_Compile := demo_compile;
  Function_Call := demo_call;
  ToString := demo_to_string;
  ToInt32 := demo_to_int32;
  host_reply := λ _ _ msg _, "ack: " +:+ msg;
  operator_new := fresh;
  operator_new_fresh := is_fresh;
|}.

(** A worker with three contexts, ids 0, 1 and 2.  The first registers a
    handler that throws and a synchronous handler that returns a number,
    the second a handler that forwards to the host and a synchronous
    handler that answers with a string, the third registers nothing. *)
Definition demo_setup : result (machine nat * (addr * addr * addr)) :=
  a ← context_new 10%nat 20%nat 100 (worker_new 0 0%nat);
  b ← context_new 11%nat 21%nat 101 a.1;
  c ← context_new 12%nat 22%nat 102 b.1;
  m ← worker_load a.2 "a.js" "$recv(f3); $recvSync(f4)" c.1;
  m ← worker_load b.2 "b.js" "$recv(f1); $recvSync(f2)" m.1;
  Ok (m.1, (a.2, b.2, c.2)).

Definition demo_machine : machine nat :=
  match demo_setup with
  | Ok r => r.1
  | Crash _ => worker_new 0 0%nat
  end.

Definition demo_a : addr := 1%positive.
Definition demo_b : addr := 2%positive.
Definition demo_c : addr := 3%positive.

(** A script of the first context that assigns a global of its own and
    registers a handler. *)
Definition demo_polite : guest nat :=
  GSetGlobal "x" (VInt32 1) (
  GCallNative NRecv [VFunction (FGuest 1%nat)] (λ _,
  demo_return 2 VUndefined)).

(** The state a run ends in. *)
Definition state_of {A} (r : result (machine nat * A)) : machine nat :=
  match r with
  | Ok x => x.1
  | Crash _ => worker_new 0 0%nat
  end.

(** The worker after a failure has been recorded, and a sequence of calls
    none of which reports a failure through its status. *)
Definition demo_failed : machine nat :=
  with_worker (set_last_exception "earlier failure") demo_machine.

Definition demo_calls : list host_op :=
  [SendSyncMsg demo_c "abc"; LastException; SendMsg demo_b "ping";
   Load demo_c "c.js" "1 + 1"; SendSyncMsg demo_a "abc"].

Definition demo_lifecycle : list lifecycle_op :=
  [CreateContext 10%nat 20%nat 100; CreateContext 11%nat 21%nat 101;
   DisposeContext 1%positive; CreateContext 12%nat 22%nat 102;
   DisposeContext 2%positive].

(** The state the script [demo_polite] of the first context leaves. *)
Definition demo_polite_run : machine nat :=
  state_of (run_guest 1%positive demo_polite demo_machine).

(** A session from a new worker: two contexts are created, the first
    loads a script and is disposed of, a third is created; and how the
    session goes on. *)
Definition demo_session : list host_op :=
  [NewContext 10%nat 20%nat 100; NewContext 11%nat 21%nat 101;
   Load 1%positive "a.js" "$recv(f1); $recvSync(f2)";
   Dispose 1%positive; NewContext 12%nat 22%nat 102].

Definition demo_session_rest : list host_op :=
  [SendMsg 2%positive "ping"; Dispose 2%positive;
   NewContext 13%nat 23%nat 103].

Definition demo_session_state : machine nat :=
  state_of (run_host demo_session (worker_new 0 0%nat)).

(** The worker after a script of the third context failed to compile. *)
Definition demo_broken : machine nat :=
  state_of (worker_load demo_c "c.js" "var = ;" demo_machine).

(** The worker after the third context has registered a synchronous
    handler that throws. *)
Definition demo_thrower : machine nat :=
  state_of (worker_load demo_c "c.js" "$recvSync(f3)" demo_machine).

(** The worker after a script of the second context has written the id of
    the first into its [$context], registered its own forwarding function,
    and put its id back: the handler of the first context is now a
    function of the second. *)
Definition demo_crossed : machine nat :=
  state_of (worker_load demo_b "b.js" "$context = 0; $recv(f1); $context = 1"
              demo_machine).

(** A heap with one live block. *)
Definition demo_heap : c_heap := {[ 5 := [1; 2; 3] ]}.

(** Splits a successful monadic computation into its steps. *)
Ltac run_split :=
  repeat match goal with
  | H : context [assert ?b] |- _ => destruct b eqn:?; simpl in H
  | H : mbind _ ?r = Ok _ |- _ => destruct r eqn:?; simpl in H
  | H : Ok _ = Ok _ |- _ => injection H as H; subst
  | H : Crash _ = Ok _ |- _ => discriminate H
  | H : (_, _) = (_, _) |- _ => injection H as ? ?; subst
  end.

(** * Properties *)

(** ** Text *)

Lemma string_app_cons (ch : ascii) (a b : string) :
  String ch a +:+ b = String ch (a +:+ b).
Proof. reflexivity. Qed.

Lemma string_app_empty_l (b : string) : "" +:+ b = b.
Proof. reflexivity. Qed.

Lemma string_app_assoc (a b c : string) : (a +:+ b) +:+ c = a +:+ (b +:+ c).
Proof.
  induction a as [|ch a IH].
  - by rewrite !string_app_empty_l.
  - by rewrite !string_app_cons, IH.
Qed.

Lemma string_app_empty_r (a : string) : a +:+ "" = a.
Proof.
  induction a as [|ch a IH]; [done|]. by rewrite string_app_cons, IH.
Qed.

Lemma string_app_length (a b : string) :
  String.length (a +:+ b) = (String.length a + String.length b)%nat.
Proof.
  induction a as [|ch a IH]; [done|].
  rewrite string_app_cons. simpl. by rewrite IH.
Qed.

Lemma substring_all (k : nat) (s : string) :
  (String.length s ≤ k)%nat → String.substring 0 k s = s.
Proof.
  revert k. induction s as [|ch s IH]; intros [|k] Hk; simpl in *; try done.
  - lia.
  - rewrite IH; [done | lia].
Qed.

(** A loop that appends the same text on every turn. *)
Lemma foldl_append_const {B} (c : string) (l : list B) (out : string) :
  foldl (λ acc _, acc +:+ c) out l = out +:+ string_repeat (length l) c.
Proof.
  revert out. induction l as [|x l IH]; intros out; cbn [foldl length string_repeat].
  - by rewrite string_app_empty_r.
  - by rewrite IH, string_app_assoc.
Qed.

Lemma for_loop_append (lo hi : Z) (c out : string) :
  for_loop lo hi (λ _ out, out +:+ c) out
  = out +:+ string_repeat (Z.to_nat (hi - lo)) c.
Proof.
  unfold for_loop. by rewrite foldl_append_const, length_seqZ.
Qed.

(** The decimal rendering of a number below [10 ^ k] has at most [k] digits. *)
Lemma pretty_N_go_length (k : nat) (x : N) (s : string) :
  (x < 10 ^ N.of_nat k)%N →
  (String.length (pretty_N_go x s) ≤ String.length s + k)%nat.
Proof.
  revert x s. induction k as [|k IH]; intros x s Hx.
  - assert (x = 0%N) as -> by (simpl in Hx; lia).
    rewrite pretty_N_go_0. lia.
  - destruct (decide (x = 0%N)) as [->|Hne].
    + rewrite pretty_N_go_0. lia.
    + rewrite pretty_N_go_step by lia.
      etrans; [apply IH|simpl; lia].
      rewrite Nat2N.inj_succ, N.pow_succ_r' in Hx.
      apply N.Div0.div_lt_upper_bound. lia.
Qed.

Lemma pretty_int32_length (n : Z) :
  is_int32 n → (String.length (pretty n) ≤ 11)%nat.
Proof.
  unfold is_int32, INT32_MIN, INT32_MAX.
  change (- 2 ^ 31) with (-2147483648). change (2 ^ 31 - 1) with 2147483647.
  intros Hn.
  assert (∀ p : positive, (N.pos p < 10000000000)%N →
            (String.length (pretty (N.pos p)) ≤ 10)%nat) as Hpos.
  { intros p Hp. unfold pretty, pretty_N.
    destruct (decide (N.pos p = 0%N)) as [|_]; [done|].
    apply (pretty_N_go_length 10 (N.pos p) "").
    by change (10 ^ N.of_nat 10)%N with 10000000000%N. }
  destruct n as [|p|p]; unfold pretty, pretty_Z.
  - simpl. lia.
  - etrans; [apply Hpos|]; lia.
  - rewrite string_app_length. simpl.
    assert (N.pos p < 10000000000)%N as Hp by lia.
    specialize (Hpos p Hp). change (pretty p) with (pretty (N.pos p)). lia.
Qed.

(** The 20 bytes of scratch space hold every [int]. *)
Lemma snprintf_i_int32 (n : Z) : is_int32 n → snprintf_i 20 n = pretty n.
Proof.
  intros Hn. unfold snprintf_i. apply substring_all.
  pose proof (pretty_int32_length n Hn). lia.
Qed.

Section Properties.
Context {JS : Type} `{!Runtime JS}.

(** ** Frames of the natives and of guest code *)

Lemma deref_Ok (m : machine JS) (c : option addr) (r : context_s) :
  deref m c = Ok r ↔ ∃ p, c = Some p ∧ heap m !! p = Some r.
Proof.
  unfold deref. split.
  - destruct c as [p|]; [|done]. destruct (heap m !! p) eqn:E; [|done].
    intros [= ->]. eauto.
  - intros (p & -> & ->). done.
Qed.

Lemma update_Ok (c : option addr) (f : context_s → context_s)
    (m m' : machine JS) :
  update c f m = Ok m' ↔
  ∃ p r, c = Some p ∧ heap m !! p = Some r ∧ m' = with_heap (<[p := f r]>) m.
Proof.
  unfold update. split.
  - destruct (deref m c) as [r|] eqn:E; [|done]. simpl.
    apply deref_Ok in E as (p & -> & Hp). intros [= <-]. eauto.
  - intros (p & r & -> & Hp & ->). simpl. rewrite Hp. done.
Qed.

(** What a native changes: nothing of the worker and nothing of the
    isolate; in the heap at most the record its scope resolves to, and of
    that record at most the handler slots. *)
Lemma call_native_frame (i : native) (args : FunctionCallbackInfo)
    (m m' : machine JS) (v : value) :
  call_native i args m = Ok (m', v) →
  worker m' = worker m
  ∧ isolate m' = isolate m
  ∧ (∀ p, calling_context args m ≠ Some p → heap m' !! p = heap m !! p)
  ∧ (∀ p a, heap m !! p = Some a →
       ∃ b, heap m' !! p = Some b ∧ same_but_handlers a b).
Proof.
  assert (∀ a, same_but_handlers a a) as Hrefl by (by intros []).
  destruct i; simpl; unfold Print, Recv, RecvSync, Send, SendSync; intros Hrun.
  - destruct (foldl _ _ _) as [? out]. simplify_eq/=. eauto 10.
  - run_split.
    match goal with H : update _ _ _ = Ok _ |- _ =>
      apply update_Ok in H as (p & r & Hc & Hp & ->) end.
    simpl. split; [done|]. split; [done|]. split.
    + intros q Hq. rewrite lookup_insert_ne; [done|congruence].
    + intros q b Hb. destruct (decide (p = q)) as [->|Hne].
      * rewrite lookup_insert_eq. eexists; split; [done|].
        rewrite Hp in Hb. by simplify_eq.
      * rewrite lookup_insert_ne by done. eauto.
  - run_split.
    match goal with H : update _ _ _ = Ok _ |- _ =>
      apply update_Ok in H as (p & r & Hc & Hp & ->) end.
    simpl. split; [done|]. split; [done|]. split.
    + intros q Hq. rewrite lookup_insert_ne; [done|congruence].
    + intros q b Hb. destruct (decide (p = q)) as [->|Hne].
      * rewrite lookup_insert_eq. eexists; split; [done|].
        rewrite Hp in Hb. by simplify_eq.
      * rewrite lookup_insert_ne by done. eauto.
  - run_split. simpl. eauto 10.
  - run_split. simpl. eauto 10.
Qed.

Lemma context_new_overflow (f : worker_recv_cb) (g : worker_recvSync_cb)
    (d : ptr) (m : machine JS) :
  contextIndex (worker m) = INT32_MAX →
  context_new f g d m = Crash SignedOverflow.
Proof.
  intros Hmax. unfold context_new, Context_New. simpl.
  by destruct (decide (contextIndex (worker m) = INT32_MAX)).
Qed.

Lemma context_dispose_Ok (c : addr) (m m' : machine JS) :
  context_dispose c m = Ok m' ↔
  is_Some (heap m !! c) ∧ m' = with_heap (delete c) m.
Proof.
  unfold context_dispose. split.
  - destruct (update _ _ _) as [m1|] eqn:Hupd; [|done]. simpl.
    apply update_Ok in Hupd as (p & r & [= <-] & Hp & ->).
    intros [= <-]. split; [eauto|].
    unfold with_heap. simpl. by rewrite delete_insert_eq.
  - intros [[r Hr] ->]. unfold update. simpl. rewrite Hr. simpl.
    unfold with_heap. simpl. by rewrite delete_insert_eq.
Qed.

Lemma run_guest_worker (ctx : scope_id) (g : guest JS) (m m' : machine JS)
    (c : completion) :
  run_guest ctx g m = Ok (m', c) → worker m' = worker m.
Proof.
  revert m. induction g as [s c0|name v k IH|name k IH|name k IH|i args k IH];
    intros m Hrun; simpl in Hrun.
  - by simplify_eq.
  - by rewrite (IH _ Hrun).
  - by rewrite (IH _ Hrun).
  - by apply (IH _ _ Hrun).
  - destruct (call_native i _ m) as [[m1 v1]|] eqn:Hnative; [|done].
    simpl in Hrun. apply call_native_frame in Hnative as (Hw & _).
    rewrite <- Hw. by apply (IH _ _ Hrun).
Qed.

Lemma Call_worker (ctx : scope_id) (f : JSFunction) (msg : string)
    (m m' : machine JS) (c : completion) :
  Call ctx f msg m = Ok (m', c) → worker m' = worker m.
Proof.
  destruct f as [home [g|i]]; unfold Call; simpl.
  - apply run_guest_worker.
  - destruct (call_native i _ m) as [[m1 v1]|] eqn:Hnative; [|done].
    simpl. intros [= <- _]. by apply call_native_frame in Hnative as (Hw & _).
Qed.

Lemma worker_sendSync_worker (c : addr) (msg : string) (m m' : machine JS)
    (s : c_str) :
  worker_sendSync c msg m = Ok (m', s) → worker m' = worker m.
Proof.
  unfold worker_sendSync. intros Hrun.
  destruct (deref m (Some c)) as [r|]; [|done]. simpl in Hrun.
  destruct (Context_Scope (context r)) as [ctx|]; [|done]. simpl in Hrun.
  destruct (recv_sync_handler r) as [f|]; [|by simplify_eq].
  destruct (Call ctx f msg m) as [[m1 [v|tc]]|] eqn:Hcall;
    simpl in Hrun; [|done|done].
  apply Call_worker in Hcall. destruct (IsString v); by simplify_eq.
Qed.

Lemma worker_send_worker (c : addr) (msg : string) (m m' : machine JS) :
  worker_send c msg m = Ok (m', 0) → worker m' = worker m.
Proof.
  unfold worker_send. intros Hrun.
  destruct (deref m (Some c)) as [r|]; [|done]. simpl in Hrun.
  destruct (Context_Scope (context r)) as [ctx|]; [|done]. simpl in Hrun.
  destruct (recv r) as [f|]; [|by simplify_eq].
  destruct (Call ctx f msg m) as [[m1 [v|tc]]|] eqn:Hcall;
    simpl in Hrun; [|by simplify_eq|done].
  apply Call_worker in Hcall. by simplify_eq.
Qed.

Lemma worker_load_worker (c : addr) (name_s source_s : string)
    (m m' : machine JS) :
  worker_load c name_s source_s m = Ok (m', 0) → worker m' = worker m.
Proof.
  unfold worker_load. intros Hrun.
  destruct (deref m (Some c)) as [r|]; [|done]. simpl in Hrun.
  destruct (Context_Scope (context r)) as [ctx|]; [|done]. simpl in Hrun.
  destruct (Script_Compile _ _ _) as [script|tc]; [|by simplify_eq].
  destruct (run_guest ctx script m) as [[m1 [v|tc]]|] eqn:Hscript;
    simpl in Hrun; [|by simplify_eq|done].
  apply run_guest_worker in Hscript. by simplify_eq.
Qed.

Lemma host_step_last_exception (op : host_op) (m m' : machine JS)
    (r : host_result) :
  host_step op m = Ok (m', r) → failed r = false →
  last_exception (worker m') = last_exception (worker m).
Proof.
  destruct op as [f g d|c|c name source|c msg|c msg|]; simpl; intros Hstep Hr.
  - destruct (context_new f g d m) as [[m1 c1]|] eqn:Hnew; [|done].
    simplify_eq/=. unfold context_new, Context_New in Hnew. simpl in Hnew.
    destruct (decide (contextIndex (worker m) = INT32_MAX)); [done|].
    by simplify_eq.
  - destruct (context_dispose c m) as [m1|] eqn:Hdis; [|done].
    simplify_eq/=. by apply context_dispose_Ok in Hdis as [_ ->].
  - destruct (worker_load _ _ _ _) as [[m1 st]|] eqn:Hload; [|done].
    simplify_eq/=. apply negb_false_iff, Z.eqb_eq in Hr as ->.
    by rewrite (worker_load_worker _ _ _ _ _ Hload).
  - destruct (worker_send _ _ _) as [[m1 st]|] eqn:Hsend; [|done].
    simplify_eq/=. apply negb_false_iff, Z.eqb_eq in Hr as ->.
    by rewrite (worker_send_worker _ _ _ _ Hsend).
  - destruct (worker_sendSync _ _ _) as [[m1 st]|] eqn:Hsend; [|done].
    simplify_eq/=. by rewrite (worker_sendSync_worker _ _ _ _ _ Hsend).
  - by simplify_eq.
Qed.

(** C9. The last-exception slot changes only when [worker_load] or
    [worker_send] returns a non-zero status: [worker_sendSync] leaves it as
    it is whenever it returns, reading it changes nothing, and a load or a
    send that returns 0 does not clear it; so over any sequence of host
    calls (creating and disposing contexts included) none of which reports
    failure through its status the slot keeps its text. *)
Theorem last_exception_frame :
  (∀ (m m' : machine JS) c msg s,
     worker_sendSync c msg m = Ok (m', s) →
     worker_last_exception m' = worker_last_exception m)
  ∧ (∀ m : machine JS,
     host_step LastException m = Ok (m, Reply (worker_last_exception m)))
  ∧ (∀ (m m' : machine JS) c name_s source_s,
     worker_load c name_s source_s m = Ok (m', 0) →
     worker_last_exception m' = worker_last_exception m)
  ∧ (∀ (m m' : machine JS) c msg,
     worker_send c msg m = Ok (m', 0) →
     worker_last_exception m' = worker_last_exception m)
  ∧ (∀ ops (m m' : machine JS) rs,
     run_host ops m = Ok (m', rs) →
     Forall (λ r, failed r = false) rs →
     worker_last_exception m' = worker_last_exception m).
Proof.
  unfold worker_last_exception. repeat split.
  - intros m m' c msg s Hrun. by rewrite (worker_sendSync_worker _ _ _ _ _ Hrun).
  - intros m m' c name_s source_s Hrun. by rewrite (worker_load_worker _ _ _ _ _ Hrun).
  - intros m m' c msg Hrun. by rewrite (worker_send_worker _ _ _ _ Hrun).
  - intros ops. induction ops as [|op ops IH]; intros m m' rs Hrun Hok; simpl in Hrun.
    + by simplify_eq.
    + destruct (host_step op m) as [[m1 r1]|] eqn:Hstep; [|done]. simpl in Hrun.
      destruct (run_host ops m1) as [[m2 rs2]|] eqn:Hrest; [|done].
      simplify_eq/=. apply Forall_cons in Hok as [Hr Hrs].
      rewrite (IH _ _ _ Hrest Hrs).
      by apply (host_step_last_exception _ _ _ _ Hstep Hr).
Qed.

(** ** The exception reporter *)

(** C7. Without a message the reporter returns the exception text and a
    newline.  With one it returns, in this order: the resource name, a
    colon, the line number, a newline; the source line, a newline;
    start-column spaces, then end-column minus start-column carets, a
    newline; the stack trace when it is not empty and the exception text
    otherwise, and a final newline. *)
Theorem ExceptionString_layout (try_catch : TryCatch) :
  (GetMessage try_catch = None →
     ExceptionString try_catch
     = ToCString (Utf8Value_new (Some (Exception try_catch))) +:+ newline)
  ∧ (∀ message,
       GetMessage try_catch = Some message →
       is_int32 (GetLineNumber message) →
       ExceptionString try_catch
       = ToCString (Utf8Value_new (Some (ResourceName message)))
         +:+ ":" +:+ pretty (GetLineNumber message) +:+ newline
         +:+ ToCString (Utf8Value_new (Some (GetSourceLine message))) +:+ newline
         +:+ string_repeat (Z.to_nat (GetStartColumn message)) " "
         +:+ string_repeat
               (Z.to_nat (GetEndColumn message - GetStartColumn message)) "^"
         +:+ newline
         +:+ (if decide (0 < Utf8Value_length (Utf8Value_new (StackTrace try_catch)))%nat
              then ToCString (Utf8Value_new (StackTrace try_catch))
              else ToCString (Utf8Value_new (Some (Exception try_catch))))
         +:+ newline).
Proof.
  split.
  - intros Hnone. unfold ExceptionString. rewrite Hnone.
    by rewrite string_app_empty_l.
  - intros message Hsome Hline. unfold ExceptionString. rewrite Hsome.
    rewrite !for_loop_append, snprintf_i_int32, Z.sub_0_r by done.
    rewrite string_app_empty_l.
    destruct (decide (0 < Utf8Value_length (Utf8Value_new (StackTrace try_catch)))%nat);
      by rewrite !string_app_assoc.
Qed.

(** ** Isolation of the handler slots *)

Lemma Object_Get_Object_Set_ne (o : gmap string property)
    (name name' : string) (v : value) :
  name ≠ name' → Object_Get (Object_Set o name v) name' = Object_Get o name'.
Proof.
  intros Hne. unfold Object_Get, Object_Set.
  destruct (o !! name) as [q|]; [destruct (is_read_only q)|];
    by rewrite ?lookup_insert_ne.
Qed.

(** What a read-only property would give: the guest's assignment leaves
    its value alone. *)
Lemma Object_Set_read_only (o : gmap string property) (name : string)
    (p : property) (v : value) :
  o !! name = Some p →
  is_read_only p = true →
  Object_Get (Object_Set o name v) name = p_value p.
Proof.
  intros Hp Hro. unfold Object_Set, Object_Get. by rewrite Hp, Hro, Hp.
Qed.

Lemma Global_assign_global (ctx : scope_id) (name : string) (v : value)
    (m : machine JS) :
  Global (assign_global ctx name v m) ctx = Object_Set (Global m ctx) name v.
Proof. unfold Global at 1. simpl. by rewrite lookup_insert_eq. Qed.

(** The record a scope resolves to is read from the worker and the
    isolate alone. *)
Lemma context_of_scope_ext (m1 m2 : machine JS) (ctx : scope_id) :
  worker m1 = worker m2 → isolate m1 = isolate m2 →
  context_of_scope m1 ctx = context_of_scope m2 ctx.
Proof.
  intros Hw Hi. unfold context_of_scope, Global. by rewrite Hw, Hi.
Qed.

Lemma Object_Get_Object_Delete_ne (o : gmap string property)
    (name name' : string) :
  name ≠ name' → Object_Get (Object_Delete o name) name' = Object_Get o name'.
Proof.
  intros Hne. unfold Object_Get, Object_Delete.
  destruct (o !! name) as [q|]; [destruct (is_dont_delete q)|];
    by rewrite ?lookup_delete_ne.
Qed.

Lemma Global_delete_global (ctx : scope_id) (name : string) (m : machine JS) :
  Global (delete_global ctx name m) ctx = Object_Delete (Global m ctx) name.
Proof. unfold Global at 1. simpl. by rewrite lookup_insert_eq. Qed.

Lemma context_of_scope_delete_global (ctx : scope_id) (name : string)
    (m : machine JS) :
  name ≠ "$context" →
  context_of_scope (delete_global ctx name m) ctx = context_of_scope m ctx.
Proof.
  intros Hne. unfold context_of_scope.
  by rewrite Global_delete_global, Object_Get_Object_Delete_ne.
Qed.

Lemma context_of_scope_assign_global (ctx : scope_id) (name : string)
    (v : value) (m : machine JS) :
  name ≠ "$context" →
  context_of_scope (assign_global ctx name v m) ctx = context_of_scope m ctx.
Proof.
  intros Hne. unfold context_of_scope.
  by rewrite Global_assign_global, Object_Get_Object_Set_ne.
Qed.

(** Guest code that leaves [$context] alone changes no record but the one
    its scope resolves to, and keeps resolving to it. *)
Lemma run_guest_frame (ctx : scope_id) (g : guest JS) (m m' : machine JS)
    (c : completion) (p : addr) :
  keeps_identity g →
  context_of_scope m ctx ≠ Some p →
  run_guest ctx g m = Ok (m', c) →
  heap m' !! p = heap m !! p
  ∧ context_of_scope m' ctx = context_of_scope m ctx.
Proof.
  revert m. induction g as [s c0|name v k IH|name k IH|name k IH|i args k IH];
    intros m Hkeeps Hp Hrun; simpl in Hrun, Hkeeps.
  - by simplify_eq.
  - destruct Hkeeps as [Hname Hkeeps].
    pose proof (context_of_scope_assign_global ctx name v m Hname) as Hsame.
    destruct (IH _ Hkeeps ltac:(by rewrite Hsame) Hrun) as [Hheap Hctx].
    by rewrite Hheap, Hctx.
  - destruct Hkeeps as [Hname Hkeeps].
    pose proof (context_of_scope_delete_global ctx name m Hname) as Hsame.
    destruct (IH _ Hkeeps ltac:(by rewrite Hsame) Hrun) as [Hheap Hctx].
    by rewrite Hheap, Hctx.
  - by apply (IH _ _ (Hkeeps _) Hp Hrun).
  - destruct (call_native i _ m) as [[m1 v1]|] eqn:Hnative; [|done].
    simpl in Hrun.
    apply call_native_frame in Hnative as (Hw & Hi & Hheap & _).
    pose proof (context_of_scope_ext m1 m ctx Hw Hi) as Hsame.
    destruct (IH _ _ (Hkeeps _) ltac:(by rewrite Hsame) Hrun) as [Hheap' Hctx].
    rewrite Hheap', Hctx, Hsame. split; [|done]. by apply Hheap.
Qed.

(** The natives neither read nor write the handler slots of a record other
    than the one the calling scope resolves to: they commute with any
    change to those slots. *)
Lemma call_native_commute (i : native) (args : FunctionCallbackInfo)
    (m : machine JS) (p : addr) (h : option JSFunction * option JSFunction) :
  calling_context args m ≠ Some p →
  call_native i args (with_handlers p h m)
  = (λ r, (with_handlers p h r.1, r.2)) <$> call_native i args m.
Proof.
  intros Hp.
  assert (∀ f, update (calling_context args m) f (with_handlers p h m)
             = with_handlers p h <$> update (calling_context args m) f m) as Hupd.
  { intros f. unfold update, deref. simpl.
    destruct (calling_context args m) as [q|]; [|done].
    rewrite lookup_alter_ne by congruence.
    destruct (heap m !! q) as [r|]; [|done]. simpl.
    unfold with_handlers, with_heap. simpl.
    by rewrite alter_insert_ne by congruence. }
  assert (deref (with_handlers p h m) (calling_context args m)
          = deref m (calling_context args m)) as Hderef.
  { unfold deref. simpl. destruct (calling_context args m) as [q|]; [|done].
    by rewrite lookup_alter_ne by congruence. }
  destruct i; simpl; unfold Print, Recv, RecvSync, Send, SendSync;
    change (calling_context args (with_handlers p h m))
      with (calling_context args m).
  - by destruct (foldl _ _ _).
  - destruct (assert _) as [[]|]; [|done]. simpl.
    destruct (Function_Cast _ _) as [f|]; [|done]. simpl.
    rewrite Hupd. by destruct (update _ _ m).
  - destruct (assert _) as [[]|]; [|done]. simpl.
    destruct (Function_Cast _ _) as [f|]; [|done]. simpl.
    rewrite Hupd. by destruct (update _ _ m).
  - destruct (assert _) as [[]|]; [|done]. simpl.
    rewrite Hderef. by destruct (deref m _).
  - destruct (assert _) as [[]|]; [|done]. simpl.
    rewrite Hderef. by destruct (deref m _).
Qed.

Lemma run_guest_commute (ctx : scope_id) (g : guest JS) (m : machine JS)
    (p : addr) (h : option JSFunction * option JSFunction) :
  keeps_identity g →
  context_of_scope m ctx ≠ Some p →
  run_guest ctx g (with_handlers p h m)
  = (λ r, (with_handlers p h r.1, r.2)) <$> run_guest ctx g m.
Proof.
  revert m. induction g as [s c0|name v k IH|name k IH|name k IH|i args k IH];
    intros m Hkeeps Hp; simpl in Hkeeps |- *.
  - done.
  - destruct Hkeeps as [Hname Hkeeps].
    change (assign_global ctx name v (with_handlers p h m))
      with (with_handlers p h (assign_global ctx name v m)).
    apply IH; [done|]. by rewrite context_of_scope_assign_global.
  - destruct Hkeeps as [Hname Hkeeps].
    change (delete_global ctx name (with_handlers p h m))
      with (with_handlers p h (delete_global ctx name m)).
    apply IH; [done|]. by rewrite context_of_scope_delete_global.
  - change (Global (with_handlers p h m) ctx) with (Global m ctx).
    by apply IH.
  - rewrite call_native_commute by done.
    destruct (call_native i _ m) as [[m1 v1]|] eqn:Hnative; [|done]. simpl.
    apply call_native_frame in Hnative as (Hw & Hi & _).
    apply IH; [done|]. by rewrite (context_of_scope_ext m1 m ctx Hw Hi).
Qed.

Lemma same_but_handlers_trans (a b c : context_s) :
  same_but_handlers a b → same_but_handlers b c → same_but_handlers a c.
Proof.
  intros (Hid & Hdata & Hctx & Hcb & Hreq) (Hid' & Hdata' & Hctx' & Hcb' & Hreq').
  repeat split; congruence.
Qed.

(** Whatever guest code does, a record keeps its id, its host data, its
    scope and its two host callbacks. *)
Lemma run_guest_same_but_handlers (ctx : scope_id) (g : guest JS)
    (m m' : machine JS) (c : completion) (p : addr) (a : context_s) :
  run_guest ctx g m = Ok (m', c) →
  heap m !! p = Some a →
  ∃ b, heap m' !! p = Some b ∧ same_but_handlers a b.
Proof.
  revert m a. induction g as [s c0|name v k IH|name k IH|name k IH|i args k IH];
    intros m a Hrun Ha; simpl in Hrun.
  - simplify_eq/=. exists a. by destruct a.
  - by apply (IH _ _ Hrun).
  - by apply (IH _ _ Hrun).
  - by apply (IH _ _ _ Hrun).
  - destruct (call_native i _ m) as [[m1 v1]|] eqn:Hnative; [|done].
    simpl in Hrun.
    apply call_native_frame in Hnative as (_ & _ & _ & Hsame).
    destruct (Hsame _ _ Ha) as (a1 & Ha1 & Haa1).
    destruct (IH _ _ _ Hrun Ha1) as (b & Hb & Ha1b).
    exists b. split; [done|]. by apply (same_but_handlers_trans a a1 b).
Qed.

(** C1, as the code has it. Let A and B be two different records, and let
    guest code run in a scope whose [$context] global resolves to A and
    never assign that global.  Then the run commutes with every change of
    B's handler slots - its outcome does not depend on them, and they come
    out as they went in; it leaves B's record and the registry as they
    were; of A's record it changes at most the handler slots; and the
    scope keeps resolving to A. *)
Theorem registration_isolated (ctx : scope_id) (g : guest JS)
    (m : machine JS) (pA pB : addr) :
  context_of_scope m ctx = Some pA →
  pA ≠ pB →
  keeps_identity g →
  (∀ h, run_guest ctx g (with_handlers pB h m)
        = (λ r, (with_handlers pB h r.1, r.2)) <$> run_guest ctx g m)
  ∧ (∀ m' c, run_guest ctx g m = Ok (m', c) →
       heap m' !! pB = heap m !! pB
       ∧ (∀ a, heap m !! pA = Some a →
            ∃ b, heap m' !! pA = Some b ∧ same_but_handlers a b)
       ∧ contexts (worker m') = contexts (worker m)
       ∧ context_of_scope m' ctx = Some pA).
Proof.
  intros HA Hne Hkeeps.
  assert (context_of_scope m ctx ≠ Some pB) as HB by (rewrite HA; congruence).
  split.
  - intros h. by apply run_guest_commute.
  - intros m' c Hrun.
    destruct (run_guest_frame _ _ _ _ _ _ Hkeeps HB Hrun) as [Hheap Hctx].
    split; [done|]. split; [|split].
    + intros a Ha. by apply (run_guest_same_but_handlers _ _ _ _ _ _ _ Hrun).
    + by rewrite (run_guest_worker _ _ _ _ _ Hrun).
    + by rewrite Hctx.
Qed.

(** ** Argument checks of the natives *)

(** C10. The natives check the type of their first argument with an
    assertion: [$recv] and [$recvSync] called with something that is not a
    function, and [$send] and [$sendSync] called with something that is not
    a string, end the process at the assertion; the guest code that made
    the call is not resumed, with an error value or with an exception. *)
Theorem natives_assert_argument_types (ctx : scope_id) (args : list value)
    (k : value → guest JS) (m : machine JS) :
  (IsFunction (default VUndefined (args !! 0%nat)) = false →
     run_guest ctx (GCallNative NRecv args k) m = Crash AssertionFailed
     ∧ run_guest ctx (GCallNative NRecvSync args k) m = Crash AssertionFailed)
  ∧ (IsString (default VUndefined (args !! 0%nat)) = false →
     run_guest ctx (GCallNative NSend args k) m = Crash AssertionFailed
     ∧ run_guest ctx (GCallNative NSendSync args k) m = Crash AssertionFailed).
Proof.
  split; intros Hv; split; simpl;
    unfold Recv, RecvSync, Send, SendSync, arg; simpl; by rewrite Hv.
Qed.

(** ** Creating and disposing contexts *)

Lemma context_new_Ok (f : worker_recv_cb) (g : worker_recvSync_cb) (d : ptr)
    (m m' : machine JS) (c : addr) :
  context_new f g d m = Ok (m', c) →
  contextIndex (worker m) ≠ INT32_MAX
  ∧ c = operator_new (dom (heap m))
  ∧ (∃ r, id r = contextIndex (worker m) ∧ heap m' = <[c := r]> (heap m))
  ∧ contextIndex (worker m') = contextIndex (worker m) + 1.
Proof.
  unfold context_new, Context_New. simpl.
  destruct (decide (contextIndex (worker m) = INT32_MAX)) as [|Hne]; [done|].
  intros [= <- <-]. simpl. split; [done|]. split; [done|].
  split; [|done]. eexists. split; [|done]. done.
Qed.

Lemma context_new_ids_in_use (f : worker_recv_cb) (g : worker_recvSync_cb)
    (d : ptr) (m m' : machine JS) (c : addr) :
  context_new f g d m = Ok (m', c) → ids_in_use m → ids_in_use m'.
Proof.
  intros Hnew [Hlt Hinj].
  apply context_new_Ok in Hnew as (_ & _ & (r & Hid & Hheap) & Hnext).
  split.
  - intros p rp. rewrite Hheap, Hnext, lookup_insert.
    case_decide; intros Hp; simplify_eq; [lia|].
    specialize (Hlt _ _ Hp). lia.
  - intros p q rp rq. rewrite Hheap, !lookup_insert.
    repeat case_decide; intros Hp Hq Heq; simplify_eq; try done.
    + specialize (Hlt _ _ Hq). lia.
    + specialize (Hlt _ _ Hp). lia.
    + eauto.
Qed.

Lemma context_dispose_ids_in_use (c : addr) (m m' : machine JS) :
  context_dispose c m = Ok m' → ids_in_use m → ids_in_use m'.
Proof.
  intros Hdis [Hlt Hinj]. apply context_dispose_Ok in Hdis as [_ ->].
  split; simpl.
  - intros p r Hp. apply lookup_delete_Some in Hp as [_ Hp]. eauto.
  - intros p q rp rq Hp Hq.
    apply lookup_delete_Some in Hp as [_ Hp].
    apply lookup_delete_Some in Hq as [_ Hq]. eauto.
Qed.

Lemma run_lifecycle_ids (ops : list lifecycle_op) (m m' : machine JS)
    (created : list (addr * Z)) :
  run_lifecycle ops m = Ok (m', created) →
  ids_in_use m →
  created.*2 = seqZ (contextIndex (worker m)) (Z.of_nat (length created))
  ∧ contextIndex (worker m') = contextIndex (worker m) + Z.of_nat (length created)
  ∧ ids_in_use m'
  ∧ (∀ p r, heap m' !! p = Some r →
       heap m !! p = Some r ∨ (p, id r) ∈ created).
Proof.
  revert m created. induction ops as [|[f g d|c] ops IH];
    intros m created Hrun Hinv; simpl in Hrun.
  - simplify_eq/=. rewrite Z.add_0_r. eauto.
  - destruct (context_new f g d m) as [[m1 c1]|] eqn:Hnew; [|done].
    simpl in Hrun.
    destruct (heap m1 !! c1) as [r1|] eqn:Hr1; [|done]. simpl in Hrun.
    destruct (run_lifecycle ops m1) as [[m2 rest]|] eqn:Hrest; [|done].
    simplify_eq/=.
    pose proof (context_new_ids_in_use _ _ _ _ _ _ Hnew Hinv) as Hinv1.
    apply context_new_Ok in Hnew as (_ & _ & (r & Hid & Hheap) & Hnext).
    rewrite Hheap, lookup_insert_eq in Hr1. simplify_eq.
    destruct (IH _ _ Hrest Hinv1) as (Hids & Hcount & Hinv2 & Hlive).
    rewrite Hnext in Hids, Hcount.
    split; [|split; [|split]].
    + rewrite Hids, Hid.
      rewrite (seqZ_cons (contextIndex (worker m))) by lia.
      f_equal. f_equal. lia.
    + lia.
    + done.
    + intros p rp Hp. destruct (Hlive _ _ Hp) as [Hold|Hin].
      * rewrite Hheap, lookup_insert in Hold. case_decide; simplify_eq.
        -- right. left.
        -- by left.
      * right. by right.
  - destruct (context_dispose c m) as [m1|] eqn:Hdis; [|done]. simpl in Hrun.
    pose proof (context_dispose_ids_in_use _ _ _ Hdis Hinv) as Hinv1.
    apply context_dispose_Ok in Hdis as [_ ->].
    destruct (IH _ _ Hrun Hinv1) as (Hids & Hcount & Hinv2 & Hlive).
    simpl in *. split; [done|]. split; [done|]. split; [done|].
    intros p rp Hp. destruct (Hlive _ _ Hp) as [Hold|Hin]; [|by right].
    left. by apply lookup_delete_Some in Hold as [_ ?].
Qed.

(** C6. Over any sequence of context creations and disposals on a new
    worker, the ids handed out are 0, 1, 2, ... in creation order (each
    creation takes the current counter, which then grows by one), so no two
    contexts ever created share an id, disposed ones included; and the
    records that are live at the end carry pairwise different ids. *)
Theorem context_ids_dense_unique (d : ptr) (s : JS) (ops : list lifecycle_op)
    (m' : machine JS) (created : list (addr * Z)) :
  run_lifecycle ops (worker_new d s) = Ok (m', created) →
  created.*2 = seqZ 0 (Z.of_nat (length created))
  ∧ NoDup created.*2
  ∧ contextIndex (worker m') = Z.of_nat (length created)
  ∧ (∀ p r, heap m' !! p = Some r → (p, id r) ∈ created)
  ∧ (∀ p q rp rq, heap m' !! p = Some rp → heap m' !! q = Some rq →
       id rp = id rq → p = q).
Proof.
  intros Hrun.
  assert (ids_in_use (worker_new d s)) as Hinv by (split; simpl; intros *; by rewrite lookup_empty).
  destruct (run_lifecycle_ids _ _ _ _ Hrun Hinv) as (Hids & Hcount & [_ Hinj] & Hlive).
  simpl in Hids, Hcount. split; [done|]. split; [|split; [lia|split]].
  - rewrite Hids. apply NoDup_seqZ.
  - intros p r Hp. destruct (Hlive _ _ Hp) as [Hold|]; [|done].
    simpl in Hold. by rewrite lookup_empty in Hold.
  - done.
Qed.

(** C2, as the code has it. [context_dispose] on a live record resets its
    scope handle and frees the record, handler slots included; it does not
    touch the worker: the registry keeps every entry, also the one of the
    id of the freed record. *)
Theorem context_dispose_effect (m : machine JS) (c : addr) (r : context_s) :
  heap m !! c = Some r →
  ∃ m', context_dispose c m = Ok m'
    ∧ heap m' !! c = None
    ∧ (∀ p, p ≠ c → heap m' !! p = heap m !! p)
    ∧ worker m' = worker m
    ∧ isolate m' = isolate m
    ∧ (∀ i, contexts (worker m) !! i = Some c →
         contexts (worker m') !! i = Some c).
Proof.
  intros Hc. exists (with_heap (delete c) m). split.
  - apply context_dispose_Ok. eauto.
  - simpl. split; [apply lookup_delete_eq|].
    split; [intros p Hp; by apply lookup_delete_ne|]. done.
Qed.

(** C5, as the code has it. [context_new] takes the current counter as the
    id of the new record and adds one to the counter; it enters the record
    in the registry under that id when the id is free; the global object of
    the new scope holds six properties, the id under [$context] and the
    five natives, all with attributes [None]: the id is an ordinary
    property, and a guest assignment to [$context] replaces its value. *)
Theorem context_new_effect (f : worker_recv_cb) (g : worker_recvSync_cb)
    (d : ptr) (m : machine JS) :
  contextIndex (worker m) ≠ INT32_MAX →
  ∃ m' c ctx,
    context_new f g d m = Ok (m', c)
    ∧ heap m !! c = None
    ∧ heap m' !! c
      = Some {| id := contextIndex (worker m); data := d;
                context := Some ctx; cb := f; req_cb := g;
                recv := None; recv_sync_handler := None |}
    ∧ contextIndex (worker m') = contextIndex (worker m) + 1
    ∧ (contexts (worker m) !! contextIndex (worker m) = None →
         contexts (worker m') = <[contextIndex (worker m) := c]> (contexts (worker m)))
    ∧ globals (isolate m) !! ctx = None
    ∧ Global m' ctx
      = list_to_map
          [("$recvSync", {| p_value := VFunction (FNative NRecvSync); p_attributes := None_ |});
           ("$sendSync", {| p_value := VFunction (FNative NSendSync); p_attributes := None_ |});
           ("$send", {| p_value := VFunction (FNative NSend); p_attributes := None_ |});
           ("$recv", {| p_value := VFunction (FNative NRecv); p_attributes := None_ |});
           ("$print", {| p_value := VFunction (FNative NPrint); p_attributes := None_ |});
           ("$context", {| p_value := VInt32 (contextIndex (worker m)); p_attributes := None_ |})]
    ∧ (∀ v, Object_Get (Global (assign_global ctx "$context" v m') ctx) "$context" = v).
Proof.
  intros Hmax.
  exists (match context_new f g d m with Ok r => r.1 | Crash _ => m end),
         (operator_new (dom (heap m))), (fresh (dom (globals (isolate m)))).
  unfold context_new, Context_New. simpl.
  destruct (decide (contextIndex (worker m) = INT32_MAX)) as [|_]; [done|].
  simpl. split; [done|].
  split; [apply not_elem_of_dom, operator_new_fresh|].
  split; [apply lookup_insert_eq|]. split; [done|].
  split; [by intros ->|].
  split; [apply not_elem_of_dom, is_fresh|].
  assert (∀ o, Global
      {| worker := o;
         heap := <[operator_new (dom (heap m)) :=
                   {| id := contextIndex (worker m); data := d;
                      context := Some (fresh (dom (globals (isolate m))));
                      cb := f; req_cb := g; recv := None;
                      recv_sync_handler := None |}]> (heap m);
         isolate := set_globals
           (<[fresh (dom (globals (isolate m))) :=
              Template_Set "$recvSync" (VFunction (FNative NRecvSync))
                (Template_Set "$sendSync" (VFunction (FNative NSendSync))
                   (Template_Set "$send" (VFunction (FNative NSend))
                      (Template_Set "$recv" (VFunction (FNative NRecv))
                         (Template_Set "$print" (VFunction (FNative NPrint))
                            (Template_Set "$context" (VInt32 (contextIndex (worker m)))
                               ObjectTemplate_New)))))]> (globals (isolate m)))
           (isolate m);
         stdout := stdout m; host := host m |}
      (fresh (dom (globals (isolate m))))
    = Template_Set "$recvSync" (VFunction (FNative NRecvSync))
        (Template_Set "$sendSync" (VFunction (FNative NSendSync))
           (Template_Set "$send" (VFunction (FNative NSend))
              (Template_Set "$recv" (VFunction (FNative NRecv))
                 (Template_Set "$print" (VFunction (FNative NPrint))
                    (Template_Set "$context" (VInt32 (contextIndex (worker m)))
                       ObjectTemplate_New)))))) as HG.
  { intros o. unfold Global. simpl. by rewrite lookup_insert_eq. }
  split; [by rewrite HG|].
  intros v. unfold assign_global, Global at 1. simpl.
  rewrite lookup_insert_eq. simpl. rewrite HG.
  unfold Object_Set, Object_Get, Template_Set.
  rewrite !lookup_insert_ne by done. rewrite lookup_insert_eq. simpl.
  by rewrite lookup_insert_eq.
Qed.

(** ** Dispatch from the host *)

(** C8. [worker_load] on a live context returns 1 and stores the formatted
    exception when the script does not compile, returns 2 and stores the
    formatted exception when the run throws, and returns 0 when the run
    completes; so whenever it returns a status other than 0 the
    last-exception slot holds the formatted exception of that failure. *)
Theorem worker_load_status (m : machine JS) (c : addr) (r : context_s)
    (ctx : scope_id) (name_s source_s : string) :
  heap m !! c = Some r →
  context r = Some ctx →
  (∀ try_catch,
     Script_Compile (js (isolate m)) source_s name_s = inr try_catch →
     worker_load c name_s source_s m
     = Ok (with_worker (set_last_exception (ExceptionString try_catch)) m, 1))
  ∧ (∀ script m' try_catch,
     Script_Compile (js (isolate m)) source_s name_s = inl script →
     run_guest ctx script m = Ok (m', Thrown try_catch) →
     worker_load c name_s source_s m
     = Ok (with_worker (set_last_exception (ExceptionString try_catch)) m', 2))
  ∧ (∀ script m' v,
     Script_Compile (js (isolate m)) source_s name_s = inl script →
     run_guest ctx script m = Ok (m', Normal v) →
     worker_load c name_s source_s m = Ok (m', 0))
  ∧ (∀ m' status,
     worker_load c name_s source_s m = Ok (m', status) →
     status ≠ 0 →
     ∃ try_catch,
       worker_last_exception m' = ExceptionString try_catch
       ∧ ((status = 1
           ∧ Script_Compile (js (isolate m)) source_s name_s = inr try_catch)
          ∨ (status = 2
             ∧ ∃ script m1,
                 Script_Compile (js (isolate m)) source_s name_s = inl script
                 ∧ run_guest ctx script m = Ok (m1, Thrown try_catch)))).
Proof.
  intros Hc Hctx. unfold worker_load. simpl. rewrite Hc. simpl.
  rewrite Hctx. simpl.
  split; [|split; [|split]].
  - intros try_catch ->. done.
  - intros script m' try_catch -> Hrun. rewrite Hrun. done.
  - intros script m' v -> Hrun. rewrite Hrun. done.
  - intros m' status Hload Hstatus.
    destruct (Script_Compile _ _ _) as [script|try_catch].
    + destruct (run_guest ctx script m) as [[m1 [v|try_catch]]|] eqn:Hrun;
        simpl in Hload; simplify_eq.
      exists try_catch. split; [done|]. right. eauto.
    + simplify_eq. exists try_catch. split; [done|]. by left.
Qed.

(** C3. [worker_send] on a live context returns 1 when no handler is
    registered, and [worker_last_exception] then reads the fixed text
    [$recv not called]; it returns 2 when the handler throws, and
    [worker_last_exception] then reads the formatted exception; it returns
    0 whatever value the handler returns, and the slot reads what it read
    before.  Conversely a status other than 0 is 1 or 2, with no handler
    registered or a handler that threw, and the slot reads the text of
    that failure. *)
Theorem worker_send_status (m : machine JS) (c : addr) (r : context_s)
    (ctx : scope_id) (msg : string) :
  heap m !! c = Some r →
  context r = Some ctx →
  (recv r = None →
     ∃ m', worker_send c msg m = Ok (m', 1)
       ∧ worker_last_exception m' = "$recv not called"
       ∧ m' = with_worker (set_last_exception "$recv not called") m)
  ∧ (∀ f m1 try_catch,
     recv r = Some f →
     Call ctx f msg m = Ok (m1, Thrown try_catch) →
     ∃ m', worker_send c msg m = Ok (m', 2)
       ∧ worker_last_exception m' = ExceptionString try_catch
       ∧ m' = with_worker (set_last_exception (ExceptionString try_catch)) m1)
  ∧ (∀ f m' v,
     recv r = Some f →
     Call ctx f msg m = Ok (m', Normal v) →
     worker_send c msg m = Ok (m', 0)
     ∧ worker_last_exception m' = worker_last_exception m)
  ∧ (∀ m' status,
     worker_send c msg m = Ok (m', status) →
     status ≠ 0 →
     (status = 1 ∧ recv r = None
      ∧ worker_last_exception m' = "$recv not called")
     ∨ (status = 2
        ∧ ∃ f m1 try_catch,
            recv r = Some f
            ∧ Call ctx f msg m = Ok (m1, Thrown try_catch)
            ∧ worker_last_exception m' = ExceptionString try_catch)).
Proof.
  intros Hc Hctx. unfold worker_send. simpl. rewrite Hc. simpl.
  rewrite Hctx. simpl.
  split; [|split; [|split]].
  - intros ->. eexists. split; [done|]. split; done.
  - intros f m1 try_catch -> Hcall. rewrite Hcall. simpl.
    eexists. split; [done|]. split; done.
  - intros f m' v -> Hcall. rewrite Hcall. simpl. split; [done|].
    unfold worker_last_exception. by rewrite (Call_worker _ _ _ _ _ _ Hcall).
  - intros m' status Hsend Hstatus.
    destruct (recv r) as [f|].
    + destruct (Call ctx f msg m) as [[m1 [v|try_catch]]|] eqn:Hcall;
        simpl in Hsend; simplify_eq.
      right. split; [done|]. by exists f, m1, try_catch.
    + simplify_eq. left. done.
Qed.

(** ** The reply of [worker_sendSync] *)

(** Whatever [worker_sendSync] returns, it returns as a pointer into its
    own local: reading the reply is a use after free. *)
Lemma worker_sendSync_dangling (c : addr) (msg : string) (m m' : machine JS)
    (reply : c_str) :
  worker_sendSync c msg m = Ok (m', reply) →
  c_str_read reply = Crash UseAfterFree.
Proof.
  unfold worker_sendSync. intros Hrun.
  destruct (deref m (Some c)) as [r|]; [|done]. simpl in Hrun.
  destruct (Context_Scope (context r)) as [ctx|]; [|done]. simpl in Hrun.
  destruct (recv_sync_handler r) as [f|]; [|by simplify_eq].
  destruct (Call ctx f msg m) as [[m1 [v|tc]]|]; simpl in Hrun; [|done|done].
  by simplify_eq.
Qed.

(** What the local held when it was destroyed: the text
    [err: $recvSync not called] when no handler is registered, the text
    [err: non-string return value] when the handler returns a value that is
    not a string, and the handler's string when it returns one. *)
Lemma worker_sendSync_buffer (m : machine JS) (c : addr) (r : context_s)
    (ctx : scope_id) (msg : string) :
  heap m !! c = Some r →
  context r = Some ctx →
  (recv_sync_handler r = None →
     worker_sendSync c msg m = Ok (m, Dangling "err: $recvSync not called"))
  ∧ (∀ f m' v,
     recv_sync_handler r = Some f →
     Call ctx f msg m = Ok (m', Normal v) →
     IsString v = false →
     worker_sendSync c msg m = Ok (m', Dangling "err: non-string return value"))
  ∧ (∀ f m' s,
     recv_sync_handler r = Some f →
     Call ctx f msg m = Ok (m', Normal (VString s)) →
     worker_sendSync c msg m = Ok (m', Dangling s)).
Proof.
  intros Hc Hctx. unfold worker_sendSync. simpl. rewrite Hc. simpl.
  rewrite Hctx. simpl.
  split; [|split].
  - intros ->. done.
  - intros f m' v -> Hcall Hv. rewrite Hcall. simpl. by rewrite Hv.
  - intros f m' s -> Hcall. rewrite Hcall. done.
Qed.

(** A synchronous handler that throws: [worker_sendSync] has no [TryCatch]
    and asks the empty result handle whether it is a string. *)
Lemma worker_sendSync_throw (m m' : machine JS) (c : addr) (r : context_s)
    (ctx : scope_id) (msg : string) (f : JSFunction) (try_catch : TryCatch) :
  heap m !! c = Some r →
  context r = Some ctx →
  recv_sync_handler r = Some f →
  Call ctx f msg m = Ok (m', Thrown try_catch) →
  worker_sendSync c msg m = Crash EmptyHandle.
Proof.
  intros Hc Hctx Hf Hcall. unfold worker_sendSync. simpl.
  rewrite Hc. simpl. rewrite Hctx. simpl. rewrite Hf, Hcall. done.
Qed.

End Properties.

(** * More of the binding *)

Section Coverage.
Context {JS : Type} `{!Runtime JS}.

(** ** The diagnostic print *)

Lemma concat_cons_spaced (t : string) (ts : list string) :
  t +:+ foldr (λ u r, " " +:+ u +:+ r) "" ts = String.concat " " (t :: ts).
Proof.
  revert t. induction ts as [|u ts IH]; intros t.
  - by rewrite string_app_empty_r.
  - cbn [foldr]. rewrite IH. reflexivity.
Qed.

Lemma Print_loop (args : list value) (out : string) :
  foldl (λ (st : bool * string) (a : value),
           let '(first, out) := st in
           let out := if first then out else out +:+ " " in
           let str := Utf8Value_new (Some a) in
           let cstr := ToCString str in
           (false, out +:+ cstr)) (false, out) args
  = (false,
     out +:+ foldr (λ u r, " " +:+ u +:+ r) ""
               ((λ a, ToCString (Utf8Value_new (Some a))) <$> args)).
Proof.
  revert out. induction args as [|a args IH]; intros out.
  - simpl. by rewrite string_app_empty_r.
  - cbn [foldl fmap list_fmap foldr]. rewrite IH.
    by rewrite !string_app_assoc.
Qed.

(** X1. [Print] writes the texts of its arguments, one space between two
    of them, and one newline after the last (a lone newline when there is
    no argument); it returns undefined and changes nothing else. *)
Theorem Print_joins_arguments (ctx : scope_id) (args : list value)
    (m : machine JS) :
  Print {| GetCurrentContext := ctx; arguments := args |} m
  = Ok (with_stdout
          (λ o, o +:+ String.concat " "
                        ((λ a, ToCString (Utf8Value_new (Some a))) <$> args)
                  +:+ newline) m,
        VUndefined).
Proof.
  unfold Print. simpl. destruct args as [|a args].
  - reflexivity.
  - cbn [foldl]. rewrite string_app_empty_l.
    rewrite (Print_loop args). cbn [fmap list_fmap].
    by rewrite concat_cons_spaced.
Qed.

(** ** What guest code can and cannot change *)

Lemma same_but_handlers_refl (a : context_s) : same_but_handlers a a.
Proof. by destruct a. Qed.

Lemma re_registered_refl (a : context_s) : re_registered a a.
Proof. split; [apply same_but_handlers_refl|done]. Qed.

Lemma re_registered_trans (a b c : context_s) :
  re_registered a b → re_registered b c → re_registered a c.
Proof.
  intros (Hab & Hr & Hs) (Hbc & Hr' & Hs'). split; [|split]; [|eauto..].
  destruct Hab as (? & ? & ? & ? & ?), Hbc as (? & ? & ? & ? & ?).
  repeat split; congruence.
Qed.

Lemma records_re_registered_refl (h : gmap addr context_s) :
  records_re_registered h h.
Proof. intros p. destruct (h !! p); [apply re_registered_refl|done]. Qed.

Lemma records_re_registered_trans (h1 h2 h3 : gmap addr context_s) :
  records_re_registered h1 h2 → records_re_registered h2 h3 →
  records_re_registered h1 h3.
Proof.
  intros H12 H23 p. specialize (H12 p). specialize (H23 p).
  destruct (h1 !! p), (h2 !! p), (h3 !! p); try done.
  by eapply re_registered_trans.
Qed.

Lemma records_re_registered_insert (h : gmap addr context_s) (p : addr)
    (a b : context_s) :
  h !! p = Some a → re_registered a b →
  records_re_registered h (<[p := b]> h).
Proof.
  intros Hp Hab q. destruct (decide (p = q)) as [<-|Hne].
  - by rewrite Hp, lookup_insert_eq.
  - rewrite lookup_insert_ne by done.
    destruct (h !! q); [apply re_registered_refl|done].
Qed.

Lemma guest_effect_refl (m : machine JS) : guest_effect m m.
Proof.
  split; [done|]. split; [apply records_re_registered_refl|].
  split; [done|]. split.
  - exists "". by rewrite string_app_empty_r.
  - exists []. by rewrite app_nil_r.
Qed.

Lemma guest_effect_trans (m1 m2 m3 : machine JS) :
  guest_effect m1 m2 → guest_effect m2 m3 → guest_effect m1 m3.
Proof.
  intros (Hw & Hh & Hg & [o Ho] & [c Hc]) (Hw' & Hh' & Hg' & [o' Ho'] & [c' Hc']).
  split; [congruence|]. split; [by eapply records_re_registered_trans|].
  split; [eauto|]. split.
  - exists (o +:+ o'). by rewrite Ho', Ho, string_app_assoc.
  - exists (c ++ c'). by rewrite Hc', Hc, app_assoc.
Qed.

Lemma call_native_effect (i : native) (args : FunctionCallbackInfo)
    (m m' : machine JS) (v : value) :
  call_native i args m = Ok (m', v) → guest_effect m m'.
Proof.
  destruct i; simpl; unfold Print, Recv, RecvSync, Send, SendSync; intros Hrun.
  - destruct (foldl _ _ _) as [? out]. simplify_eq/=.
    split; [done|]. split; [apply records_re_registered_refl|].
    split; [done|]. split; [by eexists|]. exists []. by rewrite app_nil_r.
  - run_split.
    match goal with H : update _ _ _ = Ok _ |- _ =>
      apply update_Ok in H as (p & r & Hc & Hp & ->) end.
    split; [done|]. split.
    { simpl. apply (records_re_registered_insert (heap m) p r); [done|].
      split; [by destruct r|]. split; simpl; eauto. }
    split; [done|]. split.
    + exists "". by rewrite string_app_empty_r.
    + exists []. by rewrite app_nil_r.
  - run_split.
    match goal with H : update _ _ _ = Ok _ |- _ =>
      apply update_Ok in H as (p & r & Hc & Hp & ->) end.
    split; [done|]. split.
    { simpl. apply (records_re_registered_insert (heap m) p r); [done|].
      split; [by destruct r|]. split; simpl; eauto. }
    split; [done|]. split.
    + exists "". by rewrite string_app_empty_r.
    + exists []. by rewrite app_nil_r.
  - run_split. split; [done|]. split; [apply records_re_registered_refl|].
    split; [done|]. split; [|by eexists].
    exists "". simpl. by rewrite string_app_empty_r.
  - run_split. split; [done|]. split; [apply records_re_registered_refl|].
    split; [done|]. split; [|by eexists].
    exists "". simpl. by rewrite string_app_empty_r.
Qed.

Lemma globals_effect (m : machine JS) (ctx : scope_id)
    (o : gmap string property) :
  guest_effect m
    (with_isolate (λ i, set_globals (<[ctx := o]> (globals i)) i) m).
Proof.
  split; [done|]. split; [apply records_re_registered_refl|]. split.
  - intros s Hs. simpl. rewrite lookup_insert. by case_decide.
  - split; [exists ""; simpl; by rewrite string_app_empty_r|].
    exists []. simpl. by rewrite app_nil_r.
Qed.

Lemma run_guest_effect (ctx : scope_id) (g : guest JS) (m m' : machine JS)
    (c : completion) :
  run_guest ctx g m = Ok (m', c) → guest_effect m m'.
Proof.
  revert m. induction g as [s c0|name v k IH|name k IH|name k IH|i args k IH];
    intros m Hrun; simpl in Hrun.
  - simplify_eq. split; [done|]. split; [apply records_re_registered_refl|].
    split; [done|]. split; [exists ""; simpl; by rewrite string_app_empty_r|].
    exists []. simpl. by rewrite app_nil_r.
  - eapply guest_effect_trans; [|by apply IH]. apply globals_effect.
  - eapply guest_effect_trans; [|by apply IH]. apply globals_effect.
  - by eapply IH.
  - destruct (call_native i _ m) as [[m1 v1]|] eqn:Hnative; [|done].
    simpl in Hrun. eapply guest_effect_trans; [|by eapply IH].
    by eapply call_native_effect.
Qed.

Lemma Call_effect (ctx : scope_id) (f : JSFunction) (msg : string)
    (m m' : machine JS) (c : completion) :
  Call ctx f msg m = Ok (m', c) → guest_effect m m'.
Proof.
  destruct f as [home [g|i]]; unfold Call; simpl.
  - apply run_guest_effect.
  - destruct (call_native i _ m) as [[m1 v1]|] eqn:Hnative; [|done].
    simpl. intros [= <- _]. by eapply call_native_effect.
Qed.

(** X2. Guest code, whatever it does and whatever it has done to its
    [$context] global, leaves the worker as it is (counter, registry, last
    exception, host data); it neither creates nor frees a context record;
    every record keeps its id, host data, scope and host callbacks, and a
    handler slot that was set stays set; standard output and the calls
    that reached the host only grow. *)
Theorem guest_code_frame (ctx : scope_id) (g : guest JS) (m m' : machine JS)
    (c : completion) :
  run_guest ctx g m = Ok (m', c) →
  worker m' = worker m
  ∧ dom (heap m') = dom (heap m)
  ∧ (∀ p a, heap m !! p = Some a →
       ∃ b, heap m' !! p = Some b
         ∧ same_but_handlers a b
         ∧ (is_Some (recv a) → is_Some (recv b))
         ∧ (is_Some (recv_sync_handler a) → is_Some (recv_sync_handler b)))
  ∧ (∃ out, stdout m' = stdout m +:+ out)
  ∧ (∃ calls, host m' = host m ++ calls).
Proof.
  intros Hrun. apply run_guest_effect in Hrun as (Hw & Hh & _ & Ho & Hc).
  split; [done|]. split; [|split; [|done]].
  - apply set_eq. intros p. rewrite !elem_of_dom. specialize (Hh p).
    destruct (heap m !! p), (heap m' !! p); try done; split;
      intros [? ?]; done.
  - intros p a Hp. specialize (Hh p). rewrite Hp in Hh.
    destruct (heap m' !! p) as [b|]; [|done].
    exists b. destruct Hh as (? & ? & ?). done.
Qed.

(** ** Creating a context, seen by its siblings and by its guest *)

Lemma context_new_result (f : worker_recv_cb) (g : worker_recvSync_cb)
    (d : ptr) (m : machine JS) :
  contextIndex (worker m) ≠ INT32_MAX →
  context_new f g d m
  = Ok ({| worker :=
             {| w_data := w_data (worker m);
                contextIndex := contextIndex (worker m) + 1;
                last_exception := last_exception (worker m);
                contexts :=
                  match contexts (worker m) !! contextIndex (worker m) with
                  | Some _ => contexts (worker m)
                  | None => <[contextIndex (worker m) := operator_new (dom (heap m))]>
                              (contexts (worker m))
                  end |};
           heap := <[operator_new (dom (heap m)) :=
                      {| id := contextIndex (worker m); data := d;
                         context := Some (fresh (dom (globals (isolate m))));
                         cb := f; req_cb := g;
                         recv := None; recv_sync_handler := None |}]> (heap m);
           isolate := set_globals
                        (<[fresh (dom (globals (isolate m))) :=
                            global_template (contextIndex (worker m))]>
                           (globals (isolate m))) (isolate m);
           stdout := stdout m;
           host := host m |}, operator_new (dom (heap m))).
Proof.
  intros Hmax. unfold context_new, Context_New. simpl.
  by destruct (decide (contextIndex (worker m) = INT32_MAX)).
Qed.

Lemma fresh_record (m : machine JS) : heap m !! operator_new (dom (heap m)) = None.
Proof. apply not_elem_of_dom, operator_new_fresh. Qed.

Lemma fresh_scope (m : machine JS) :
  globals (isolate m) !! fresh (dom (globals (isolate m))) = None.
Proof. apply not_elem_of_dom, is_fresh. Qed.

(** X5. [context_new] does not disturb what is there: every live record,
    every registry entry and every scope is after the call what it was
    before (a registry entry is never overwritten), and so are the last
    exception, standard output and the calls that reached the host. *)
Theorem context_new_frame (f : worker_recv_cb) (g : worker_recvSync_cb)
    (d : ptr) (m : machine JS) :
  contextIndex (worker m) ≠ INT32_MAX →
  ∃ m' c,
    context_new f g d m = Ok (m', c)
    ∧ (∀ p r, heap m !! p = Some r → heap m' !! p = Some r)
    ∧ contexts (worker m) ⊆ contexts (worker m')
    ∧ (∀ s o, globals (isolate m) !! s = Some o →
         globals (isolate m') !! s = Some o)
    ∧ last_exception (worker m') = last_exception (worker m)
    ∧ stdout m' = stdout m
    ∧ host m' = host m.
Proof.
  intros Hmax. eexists _, _. split; [by apply context_new_result|]. simpl.
  split; [|split; [|split; [|done]]].
  - intros p r Hp. rewrite lookup_insert_ne; [done|].
    intros <-. by rewrite fresh_record in Hp.
  - destruct (contexts (worker m) !! contextIndex (worker m)) eqn:Hn; [done|].
    by apply insert_subseteq.
  - intros s o Hs. rewrite lookup_insert_ne; [done|].
    intros <-. by rewrite fresh_scope in Hs.
Qed.

Lemma global_template_identity (n : Z) :
  Object_Get (global_template n) "$context" = VInt32 n.
Proof.
  unfold Object_Get, global_template, Template_Set.
  rewrite !lookup_insert_ne by done. by rewrite lookup_insert_eq.
Qed.

Lemma context_of_new_scope (f : worker_recv_cb) (g : worker_recvSync_cb)
    (d : ptr) (m m' : machine JS) (c : addr) :
  contexts (worker m) !! contextIndex (worker m) = None →
  context_new f g d m = Ok (m', c) →
  context_of_scope m' (fresh (dom (globals (isolate m)))) = Some c
  ∧ heap m' !! c
    = Some {| id := contextIndex (worker m); data := d;
              context := Some (fresh (dom (globals (isolate m))));
              cb := f; req_cb := g; recv := None; recv_sync_handler := None |}.
Proof.
  intros Hfree Hnew.
  pose proof (context_new_Ok _ _ _ _ _ _ Hnew) as (Hmax & _).
  rewrite context_new_result in Hnew by done. injection Hnew as <- <-.
  split.
  - unfold context_of_scope, Global. simpl. rewrite lookup_insert_eq. simpl.
    rewrite Hfree, global_template_identity. simpl. apply lookup_insert_eq.
  - simpl. apply lookup_insert_eq.
Qed.

(** X6. In a state whose registry has no entry yet for the current
    counter, the outbound natives of a context just created reach the
    callbacks that were given to [context_new]: [$send(s)] called in its
    scope hands the host's async callback the string [s] itself and the
    data pointer of the new context and gives the guest undefined;
    [$sendSync(s)] does so with the sync callback and gives the guest the
    host's reply as a string. *)
Theorem new_context_outbound_routes (f : worker_recv_cb)
    (g : worker_recvSync_cb) (d : ptr) (m : machine JS) :
  contextIndex (worker m) ≠ INT32_MAX →
  contexts (worker m) !! contextIndex (worker m) = None →
  ∃ m' c ctx,
    context_new f g d m = Ok (m', c)
    ∧ context <$> heap m' !! c = Some (Some ctx)
    ∧ context_of_scope m' ctx = Some c
    ∧ (∀ s rest k,
         run_guest ctx (GCallNative NSend (VString s :: rest) k) m'
         = run_guest ctx (k VUndefined)
             (with_host (λ h, h ++ [HostRecv f s d]) m'))
    ∧ (∀ s rest k,
         run_guest ctx (GCallNative NSendSync (VString s :: rest) k) m'
         = run_guest ctx (k (VString (host_reply (host m') g s d)))
             (with_host (λ h, h ++ [HostRecvSync g s d]) m')).
Proof.
  intros Hmax Hfree.
  destruct (context_new f g d m) as [[m' c]|] eqn:Hnew;
    [|by rewrite context_new_result in Hnew].
  destruct (context_of_new_scope _ _ _ _ _ _ Hfree Hnew) as [Hctx Hrec].
  exists m', c, (fresh (dom (globals (isolate m)))).
  split; [done|]. split; [by rewrite Hrec|]. split; [done|].
  split; intros s rest k; simpl; unfold Send, SendSync, calling_context, arg;
    simpl; rewrite Hctx; simpl; by rewrite Hrec.
Qed.

(** X7. A context just created has no guest handler: [worker_send] on it
    returns 1, after which [worker_last_exception] reads the text
    [$recv not called] and nothing else has changed; [worker_sendSync] on
    it changes nothing and returns a pointer into its destroyed local,
    which held the text [err: $recvSync not called].  Neither runs guest
    code. *)
Theorem fresh_context_has_no_handlers (f : worker_recv_cb)
    (g : worker_recvSync_cb) (d : ptr) (msg : string) (m : machine JS) :
  contextIndex (worker m) ≠ INT32_MAX →
  ∃ m' c,
    context_new f g d m = Ok (m', c)
    ∧ (∃ m'', worker_send c msg m' = Ok (m'', 1)
         ∧ worker_last_exception m'' = "$recv not called"
         ∧ heap m'' = heap m' ∧ isolate m'' = isolate m'
         ∧ contexts (worker m'') = contexts (worker m')
         ∧ contextIndex (worker m'') = contextIndex (worker m')
         ∧ stdout m'' = stdout m' ∧ host m'' = host m')
    ∧ worker_sendSync c msg m'
      = Ok (m', Dangling "err: $recvSync not called").
Proof.
  intros Hmax. eexists _, _. split; [by apply context_new_result|].
  unfold worker_send, worker_sendSync. simpl.
  rewrite lookup_insert_eq. simpl. split; [|done].
  eexists. split; [done|]. by repeat split.
Qed.

(** ** The states a host can reach *)

Lemma worker_load_shape (c : addr) (name_s source_s : string)
    (m m' : machine JS) (status : Z) :
  worker_load c name_s source_s m = Ok (m', status) →
  ∃ m1, guest_effect m m1
    ∧ (m' = m1 ∨ ∃ e, m' = with_worker (set_last_exception e) m1).
Proof.
  unfold worker_load. intros Hrun.
  destruct (deref m (Some c)) as [r|]; [|done]. simpl in Hrun.
  destruct (Context_Scope (context r)) as [ctx|]; [|done]. simpl in Hrun.
  destruct (Script_Compile _ _ _) as [script|tc].
  - destruct (run_guest ctx script m) as [[m1 [v|tc]]|] eqn:Hscript;
      simpl in Hrun; simplify_eq; apply run_guest_effect in Hscript; eauto.
  - simplify_eq. exists m. split; [apply guest_effect_refl|eauto].
Qed.

Lemma worker_send_shape (c : addr) (msg : string) (m m' : machine JS)
    (status : Z) :
  worker_send c msg m = Ok (m', status) →
  ∃ m1, guest_effect m m1
    ∧ (m' = m1 ∨ ∃ e, m' = with_worker (set_last_exception e) m1).
Proof.
  unfold worker_send. intros Hrun.
  destruct (deref m (Some c)) as [r|]; [|done]. simpl in Hrun.
  destruct (Context_Scope (context r)) as [ctx|]; [|done]. simpl in Hrun.
  destruct (recv r) as [f|].
  - destruct (Call ctx f msg m) as [[m1 [v|tc]]|] eqn:Hcall;
      simpl in Hrun; simplify_eq; apply Call_effect in Hcall; eauto.
  - simplify_eq. exists m. split; [apply guest_effect_refl|eauto].
Qed.

Lemma worker_sendSync_shape (c : addr) (msg : string) (m m' : machine JS)
    (reply : c_str) :
  worker_sendSync c msg m = Ok (m', reply) → guest_effect m m'.
Proof.
  unfold worker_sendSync. intros Hrun.
  destruct (deref m (Some c)) as [r|]; [|done]. simpl in Hrun.
  destruct (Context_Scope (context r)) as [ctx|]; [|done]. simpl in Hrun.
  destruct (recv_sync_handler r) as [f|].
  - destruct (Call ctx f msg m) as [[m1 [v|tc]]|] eqn:Hcall;
      simpl in Hrun; [|done|done].
    apply Call_effect in Hcall. destruct (IsString v); by simplify_eq.
  - simplify_eq. apply guest_effect_refl.
Qed.

Lemma well_formed_worker_new (d : ptr) (s : JS) : well_formed (worker_new d s).
Proof.
  split; [|split].
  - simpl. unfold INT32_MAX. lia.
  - intros i. simpl. rewrite lookup_empty. split; [by intros [? ?]|lia].
  - intros p r. simpl. by rewrite lookup_empty.
Qed.

Lemma well_formed_context_new (f : worker_recv_cb) (g : worker_recvSync_cb)
    (d : ptr) (m m' : machine JS) (c : addr) :
  well_formed m → context_new f g d m = Ok (m', c) → well_formed m'.
Proof.
  intros (Hrange & Hdense & Hreg) Hnew. unfold registry_dense in Hdense.
  pose proof (context_new_Ok _ _ _ _ _ _ Hnew) as (Hmax & _).
  rewrite context_new_result in Hnew by done. injection Hnew as <- <-.
  assert (contexts (worker m) !! contextIndex (worker m) = None) as Hfree.
  { apply eq_None_not_Some. rewrite Hdense. lia. }
  split; [|split].
  - simpl. lia.
  - intros i. simpl. rewrite Hfree, lookup_insert.
    case_decide as Hi.
    + subst i. split; [lia|eauto].
    + rewrite Hdense. lia.
  - intros p r. simpl. rewrite Hfree, lookup_insert.
    case_decide as Hp.
    + intros [= <-]. simpl. rewrite lookup_insert_eq. split; [by subst|].
      eexists. split; [done|]. rewrite lookup_insert_eq. eauto.
    + intros Hr. destruct (Hreg _ _ Hr) as (Hid & s & Hs & Hglobal).
      rewrite lookup_insert_ne; [|intros Heq; rewrite <- Heq, Hfree in Hid; done].
      split; [done|]. exists s. split; [done|].
      rewrite lookup_insert_ne; [done|].
      intros <-. rewrite fresh_scope in Hglobal. by destruct Hglobal.
Qed.

Lemma well_formed_context_dispose (c : addr) (m m' : machine JS) :
  well_formed m → context_dispose c m = Ok m' → well_formed m'.
Proof.
  intros (Hrange & Hdense & Hreg) Hdis.
  apply context_dispose_Ok in Hdis as [_ ->].
  split; [done|]. split; [done|].
  intros p r Hp. simpl in Hp. apply lookup_delete_Some in Hp as [_ Hp].
  by apply Hreg.
Qed.

Lemma well_formed_guest_effect (m m' : machine JS) :
  well_formed m → guest_effect m m' → well_formed m'.
Proof.
  intros (Hrange & Hdense & Hreg) (Hw & Hh & Hg & _).
  split; [by rewrite Hw|]. split.
  - intros i. rewrite Hw. apply Hdense.
  - intros p b Hb. specialize (Hh p). rewrite Hb in Hh.
    destruct (heap m !! p) as [a|] eqn:Ha; [|done].
    destruct Hh as ((Hid & _ & Hctx & _) & _).
    destruct (Hreg _ _ Ha) as (Hentry & s & Hs & Hglobal).
    rewrite Hw, <- Hid. split; [done|].
    exists s. split; [congruence|eauto].
Qed.

Lemma well_formed_dispatch (m m1 m' : machine JS) :
  well_formed m → guest_effect m m1 →
  m' = m1 ∨ (∃ e, m' = with_worker (set_last_exception e) m1) →
  well_formed m'.
Proof.
  intros Hwf Heff [->|[e ->]].
  - by eapply well_formed_guest_effect.
  - exact (well_formed_guest_effect _ _ Hwf Heff).
Qed.

Lemma host_step_well_formed (op : host_op) (m m' : machine JS)
    (r : host_result) :
  well_formed m → host_step op m = Ok (m', r) → well_formed m'.
Proof.
  intros Hwf.
  destruct op as [f g d|c|c name source|c msg|c msg|]; simpl; intros Hstep.
  - destruct (context_new f g d m) as [[m1 c1]|] eqn:Hnew; [|done].
    simplify_eq/=. by eapply well_formed_context_new.
  - destruct (context_dispose c m) as [m1|] eqn:Hdis; [|done].
    simplify_eq/=. by eapply well_formed_context_dispose.
  - destruct (worker_load _ _ _ _) as [[m1 st]|] eqn:Hload; [|done].
    simplify_eq/=. apply worker_load_shape in Hload as (m2 & Heff & Hm).
    by eapply well_formed_dispatch.
  - destruct (worker_send _ _ _) as [[m1 st]|] eqn:Hsend; [|done].
    simplify_eq/=. apply worker_send_shape in Hsend as (m2 & Heff & Hm).
    by eapply well_formed_dispatch.
  - destruct (worker_sendSync _ _ _) as [[m1 st]|] eqn:Hsend; [|done].
    simplify_eq/=. apply worker_sendSync_shape in Hsend.
    by eapply well_formed_guest_effect.
  - by simplify_eq.
Qed.

Lemma run_host_well_formed (ops : list host_op) (m m' : machine JS)
    (rs : list host_result) :
  well_formed m → run_host ops m = Ok (m', rs) → well_formed m'.
Proof.
  revert m rs. induction ops as [|op ops IH]; intros m rs Hwf Hrun;
    simpl in Hrun.
  - by simplify_eq.
  - destruct (host_step op m) as [[m1 r1]|] eqn:Hstep; [|done]. simpl in Hrun.
    destruct (run_host ops m1) as [[m2 rs2]|] eqn:Hrest; [|done].
    simplify_eq/=. eapply IH; [|done]. by eapply host_step_well_formed.
Qed.

Lemma host_step_registry (op : host_op) (m m' : machine JS) (r : host_result) :
  host_step op m = Ok (m', r) → contexts (worker m) ⊆ contexts (worker m').
Proof.
  destruct op as [f g d|c|c name source|c msg|c msg|]; simpl; intros Hstep.
  - destruct (context_new f g d m) as [[m1 c1]|] eqn:Hnew; [|done].
    simplify_eq/=.
    pose proof (context_new_Ok _ _ _ _ _ _ Hnew) as (Hmax & _).
    rewrite context_new_result in Hnew by done. injection Hnew as <- <-. simpl.
    destruct (contexts (worker m) !! contextIndex (worker m)) eqn:Hn; [done|].
    by apply insert_subseteq.
  - destruct (context_dispose c m) as [m1|] eqn:Hdis; [|done].
    simplify_eq/=. by apply context_dispose_Ok in Hdis as [_ ->].
  - destruct (worker_load _ _ _ _) as [[m1 st]|] eqn:Hload; [|done].
    simplify_eq/=.
    apply worker_load_shape in Hload as (m2 & (Hw & _) & [->|[e ->]]);
      simpl; by rewrite Hw.
  - destruct (worker_send _ _ _) as [[m1 st]|] eqn:Hsend; [|done].
    simplify_eq/=.
    apply worker_send_shape in Hsend as (m2 & (Hw & _) & [->|[e ->]]);
      simpl; by rewrite Hw.
  - destruct (worker_sendSync _ _ _) as [[m1 st]|] eqn:Hsend; [|done].
    simplify_eq/=. apply worker_sendSync_shape in Hsend as (Hw & _).
    by rewrite Hw.
  - by simplify_eq.
Qed.

Lemma run_host_registry (ops : list host_op) (m m' : machine JS)
    (rs : list host_result) :
  run_host ops m = Ok (m', rs) → contexts (worker m) ⊆ contexts (worker m').
Proof.
  revert m rs. induction ops as [|op ops IH]; intros m rs Hrun; simpl in Hrun.
  - by simplify_eq.
  - destruct (host_step op m) as [[m1 r1]|] eqn:Hstep; [|done]. simpl in Hrun.
    destruct (run_host ops m1) as [[m2 rs2]|] eqn:Hrest; [|done].
    simplify_eq/=. etrans; [by eapply host_step_registry|by eapply IH].
Qed.

(** X3. The registry only grows.  After any sequence of host calls on a
    new worker - loads and sends running any guest code, creations,
    disposals - the registry holds an entry for exactly the ids below the
    counter, those of disposed contexts included; and whatever calls
    follow, every entry stays as it is. *)
Theorem registry_never_shrinks (d : ptr) (s : JS) (ops ops' : list host_op)
    (m m' : machine JS) (rs rs' : list host_result) :
  run_host ops (worker_new d s) = Ok (m, rs) →
  run_host ops' m = Ok (m', rs') →
  (∀ i, is_Some (contexts (worker m) !! i) ↔ 0 ≤ i < contextIndex (worker m))
  ∧ (∀ i p, contexts (worker m) !! i = Some p →
       contexts (worker m') !! i = Some p).
Proof.
  intros Hrun Hrun'. split.
  - by destruct (run_host_well_formed _ _ _ _ (well_formed_worker_new d s) Hrun)
      as (_ & Hdense & _).
  - intros i p Hi. pose proof (run_host_registry _ _ _ _ Hrun') as Hsub.
    by eapply lookup_weaken.
Qed.

(** X4. After any sequence of host calls on a new worker, whatever guest
    code ran: every live context record is entered in the registry under
    its own id, which lies below the counter; it holds a scope the isolate
    knows; two live records never share an id; and the counter lies
    between 0 and [INT32_MAX]. *)
Theorem live_contexts_registered (d : ptr) (s : JS) (ops : list host_op)
    (m : machine JS) (rs : list host_result) :
  run_host ops (worker_new d s) = Ok (m, rs) →
  0 ≤ contextIndex (worker m) ≤ INT32_MAX
  ∧ (∀ p r, heap m !! p = Some r →
       contexts (worker m) !! id r = Some p
       ∧ 0 ≤ id r < contextIndex (worker m)
       ∧ ∃ scope, context r = Some scope
           ∧ is_Some (globals (isolate m) !! scope))
  ∧ (∀ p q rp rq, heap m !! p = Some rp → heap m !! q = Some rq →
       id rp = id rq → p = q).
Proof.
  intros Hrun.
  destruct (run_host_well_formed _ _ _ _ (well_formed_worker_new d s) Hrun)
    as (Hrange & Hdense & Hreg).
  split; [done|]. split.
  - intros p r Hp. destruct (Hreg _ _ Hp) as (Hentry & Hscope).
    split; [done|]. split; [|done]. apply Hdense. eauto.
  - intros p q rp rq Hp Hq Hid.
    destruct (Hreg _ _ Hp) as (Hentry & _), (Hreg _ _ Hq) as (Hentry' & _).
    congruence.
Qed.

(** ** Registering handlers *)

(** X8. Registration overwrites, it never stacks: registering a handler
    and then another one of the same kind from the same scope leaves the
    state that registering the second alone would have left (and fails
    where that would have failed). *)
Theorem registration_last_write_wins (ctx : scope_id) (f1 f2 : function)
    (rest1 rest2 : list value) (m : machine JS) :
  (r ← Recv {| GetCurrentContext := ctx; arguments := VFunction f1 :: rest1 |} m;
   Recv {| GetCurrentContext := ctx; arguments := VFunction f2 :: rest2 |} r.1)
  = Recv {| GetCurrentContext := ctx; arguments := VFunction f2 :: rest2 |} m
  ∧ (r ← RecvSync {| GetCurrentContext := ctx; arguments := VFunction f1 :: rest1 |} m;
     RecvSync {| GetCurrentContext := ctx; arguments := VFunction f2 :: rest2 |} r.1)
    = RecvSync {| GetCurrentContext := ctx; arguments := VFunction f2 :: rest2 |} m.
Proof.
  unfold Recv, RecvSync, calling_context, arg, update, deref. simpl.
  destruct (context_of_scope m ctx) as [p|] eqn:Hctx; [|done].
  destruct (heap m !! p) as [r|] eqn:Hp; [|done]. simpl.
  change (context_of_scope (with_heap _ m) ctx) with (context_of_scope m ctx).
  rewrite Hctx. simpl. rewrite !lookup_insert_eq. simpl.
  unfold with_heap. simpl. by rewrite !insert_insert_eq.
Qed.

(** X9. The two handler slots are independent: registering an async and a
    sync handler from one scope gives the same state in either order. *)
Theorem registration_slots_independent (ctx : scope_id) (f g : function)
    (rest1 rest2 : list value) (m : machine JS) :
  (r ← Recv {| GetCurrentContext := ctx; arguments := VFunction f :: rest1 |} m;
   RecvSync {| GetCurrentContext := ctx; arguments := VFunction g :: rest2 |} r.1)
  = (r ← RecvSync {| GetCurrentContext := ctx; arguments := VFunction g :: rest2 |} m;
     Recv {| GetCurrentContext := ctx; arguments := VFunction f :: rest1 |} r.1).
Proof.
  unfold Recv, RecvSync, calling_context, arg, update, deref. simpl.
  destruct (context_of_scope m ctx) as [p|] eqn:Hctx; [|done].
  destruct (heap m !! p) as [r|] eqn:Hp; [|done]. simpl.
  change (context_of_scope (with_heap _ m) ctx) with (context_of_scope m ctx).
  rewrite Hctx. simpl. rewrite !lookup_insert_eq. simpl.
  unfold with_heap. simpl. by rewrite !insert_insert_eq.
Qed.

Lemma host_step_records (op : host_op) (m m' : machine JS) (res : host_result)
    (p : addr) (a : context_s) :
  host_step op m = Ok (m', res) →
  op ≠ Dispose p →
  heap m !! p = Some a →
  ∃ b, heap m' !! p = Some b ∧ re_registered a b.
Proof.
  assert (∀ m1, guest_effect m m1 →
            heap m !! p = Some a →
            ∃ b, heap m1 !! p = Some b ∧ re_registered a b) as Heffect.
  { intros m1 (_ & Hh & _) Ha. specialize (Hh p). rewrite Ha in Hh.
    destruct (heap m1 !! p) as [b|]; [eauto|done]. }
  destruct op as [f g d|c|c name source|c msg|c msg|]; simpl;
    intros Hstep Hop Ha.
  - destruct (context_new f g d m) as [[m1 c1]|] eqn:Hnew; [|done].
    simplify_eq/=.
    pose proof (context_new_Ok _ _ _ _ _ _ Hnew) as (Hmax & _).
    rewrite context_new_result in Hnew by done. injection Hnew as <- <-. simpl.
    exists a. split; [|apply re_registered_refl].
    rewrite lookup_insert_ne; [done|].
    intros <-. by rewrite fresh_record in Ha.
  - destruct (context_dispose c m) as [m1|] eqn:Hdis; [|done].
    simplify_eq/=. apply context_dispose_Ok in Hdis as [_ ->]. simpl.
    exists a. split; [|apply re_registered_refl].
    rewrite lookup_delete_ne; [done|congruence].
  - destruct (worker_load _ _ _ _) as [[m1 st]|] eqn:Hload; [|done].
    simplify_eq/=.
    apply worker_load_shape in Hload as (m2 & Heff & [->|[e ->]]);
      exact (Heffect m2 Heff Ha).
  - destruct (worker_send _ _ _) as [[m1 st]|] eqn:Hsend; [|done].
    simplify_eq/=.
    apply worker_send_shape in Hsend as (m2 & Heff & [->|[e ->]]);
      exact (Heffect m2 Heff Ha).
  - destruct (worker_sendSync _ _ _) as [[m1 st]|] eqn:Hsend; [|done].
    simplify_eq/=. apply worker_sendSync_shape in Hsend. by apply Heffect.
  - simplify_eq. exists a. split; [done|apply re_registered_refl].
Qed.

Lemma run_host_records (ops : list host_op) (m m' : machine JS)
    (rs : list host_result) (p : addr) (a : context_s) :
  run_host ops m = Ok (m', rs) →
  Dispose p ∉ ops →
  heap m !! p = Some a →
  ∃ b, heap m' !! p = Some b ∧ re_registered a b.
Proof.
  revert m rs a. induction ops as [|op ops IH]; intros m rs a Hrun Hops Ha;
    simpl in Hrun.
  - simplify_eq. exists a. split; [done|apply re_registered_refl].
  - destruct (host_step op m) as [[m1 r1]|] eqn:Hstep; [|done].
    simpl in Hrun.
    destruct (run_host ops m1) as [[m2 rs2]|] eqn:Hrest; [|done].
    simplify_eq/=. apply not_elem_of_cons in Hops as [Hop Hops].
    assert (op ≠ Dispose p) as Hop' by congruence.
    destruct (host_step_records _ _ _ _ _ _ Hstep Hop' Ha)
      as (a1 & Ha1 & Haa1).
    destruct (IH _ _ _ Hrest Hops Ha1) as (b & Hb & Ha1b).
    exists b. split; [done|]. by eapply re_registered_trans.
Qed.

(** X11. There is no way to unregister.  Over any sequence of host calls
    that does not dispose the context - loads and sends running any guest
    code, creations, disposals of other contexts - a live context stays
    live with its id, host data, scope and callbacks, and a handler slot
    of it that is set stays set. *)
Theorem handlers_stay_registered (ops : list host_op) (m m' : machine JS)
    (rs : list host_result) (p : addr) (a : context_s) :
  run_host ops m = Ok (m', rs) →
  Dispose p ∉ ops →
  heap m !! p = Some a →
  ∃ b, heap m' !! p = Some b
    ∧ same_but_handlers a b
    ∧ (is_Some (recv a) → is_Some (recv b))
    ∧ (is_Some (recv_sync_handler a) → is_Some (recv_sync_handler b)).
Proof.
  intros Hrun Hops Ha.
  destruct (run_host_records _ _ _ _ _ _ Hrun Hops Ha) as (b & Hb & Hab & Hr & Hs).
  eauto.
Qed.

(** ** Disposing a context *)

Lemma context_dispose_live (c : addr) (m : machine JS) :
  is_Some (heap m !! c) → context_dispose c m = Ok (with_heap (delete c) m).
Proof. intros Hc. by apply context_dispose_Ok. Qed.

(** X12. A disposed context must not be used again: after
    [context_dispose] on a live record, [worker_load], [worker_send],
    [worker_sendSync] and a second [context_dispose] given the same pointer
    all read the freed record - undefined behaviour, a fault here. *)
Theorem use_after_dispose_faults (m : machine JS) (c : addr) (r : context_s)
    (name_s source_s msg : string) :
  heap m !! c = Some r →
  ∃ m', context_dispose c m = Ok m'
    ∧ worker_load c name_s source_s m' = Crash UseAfterFree
    ∧ worker_send c msg m' = Crash UseAfterFree
    ∧ worker_sendSync c msg m' = Crash UseAfterFree
    ∧ context_dispose c m' = Crash UseAfterFree.
Proof.
  intros Hc. exists (with_heap (delete c) m).
  split; [apply context_dispose_live; eauto|].
  unfold worker_load, worker_send, worker_sendSync, context_dispose, update,
    deref. simpl. by rewrite lookup_delete_eq.
Qed.

Lemma call_native_delete (i : native) (args : FunctionCallbackInfo)
    (m : machine JS) (p : addr) :
  calling_context args m ≠ Some p →
  call_native i args (with_heap (delete p) m)
  = (λ r, (with_heap (delete p) r.1, r.2)) <$> call_native i args m.
Proof.
  intros Hp.
  assert (∀ f, update (calling_context args m) f (with_heap (delete p) m)
             = with_heap (delete p) <$> update (calling_context args m) f m)
    as Hupd.
  { intros f. unfold update, deref. simpl.
    destruct (calling_context args m) as [q|]; [|done].
    rewrite lookup_delete_ne by congruence.
    destruct (heap m !! q) as [r|]; [|done]. simpl.
    unfold with_heap. simpl.
    by rewrite delete_insert_ne by congruence. }
  assert (deref (with_heap (delete p) m) (calling_context args m)
          = deref m (calling_context args m)) as Hderef.
  { unfold deref. simpl. destruct (calling_context args m) as [q|]; [|done].
    by rewrite lookup_delete_ne by congruence. }
  destruct i; simpl; unfold Print, Recv, RecvSync, Send, SendSync;
    change (calling_context args (with_heap (delete p) m))
      with (calling_context args m).
  - by destruct (foldl _ _ _).
  - destruct (assert _) as [[]|]; [|done]. simpl.
    destruct (Function_Cast _ _) as [f|]; [|done]. simpl.
    rewrite Hupd. by destruct (update _ _ m).
  - destruct (assert _) as [[]|]; [|done]. simpl.
    destruct (Function_Cast _ _) as [f|]; [|done]. simpl.
    rewrite Hupd. by destruct (update _ _ m).
  - destruct (assert _) as [[]|]; [|done]. simpl.
    rewrite Hderef. by destruct (deref m _).
  - destruct (assert _) as [[]|]; [|done]. simpl.
    rewrite Hderef. by destruct (deref m _).
Qed.

Lemma run_guest_delete (ctx : scope_id) (g : guest JS) (m : machine JS)
    (p : addr) :
  keeps_identity g →
  context_of_scope m ctx ≠ Some p →
  run_guest ctx g (with_heap (delete p) m)
  = (λ r, (with_heap (delete p) r.1, r.2)) <$> run_guest ctx g m.
Proof.
  revert m. induction g as [s c0|name v k IH|name k IH|name k IH|i args k IH];
    intros m Hkeeps Hp; simpl in Hkeeps |- *.
  - done.
  - destruct Hkeeps as [Hname Hkeeps].
    change (assign_global ctx name v (with_heap (delete p) m))
      with (with_heap (delete p) (assign_global ctx name v m)).
    apply IH; [done|]. by rewrite context_of_scope_assign_global.
  - destruct Hkeeps as [Hname Hkeeps].
    change (delete_global ctx name (with_heap (delete p) m))
      with (with_heap (delete p) (delete_global ctx name m)).
    apply IH; [done|]. by rewrite context_of_scope_delete_global.
  - change (Global (with_heap (delete p) m) ctx) with (Global m ctx).
    by apply IH.
  - rewrite call_native_delete by done.
    destruct (call_native i _ m) as [[m1 v1]|] eqn:Hnative; [|done]. simpl.
    apply call_native_frame in Hnative as (Hw & Hi & _).
    apply IH; [done|]. by rewrite (context_of_scope_ext m1 m ctx Hw Hi).
Qed.

(** X13. Disposal is independent of sibling contexts.  Let A and B be
    two live contexts, and let the handler of A, if it has one, have been
    created in a scope that does not resolve to B and, if it is guest code,
    leave [$context] alone.  Disposing B and then sending to A gives what
    sending to A and then disposing B gives: the same status, the same
    final state, the same fault. *)
Theorem dispose_commutes_with_send (m : machine JS) (a b : addr)
    (r : context_s) (msg : string) :
  heap m !! a = Some r →
  is_Some (heap m !! b) →
  a ≠ b →
  (∀ f, recv r = Some f →
        context_of_scope m (CreationContext f) ≠ Some b
        ∧ ∀ g, code f = FGuest g →
               keeps_identity (Function_Call (js (isolate m)) g msg)) →
  (m1 ← context_dispose b m; worker_send a msg m1)
  = (x ← worker_send a msg m; m2 ← context_dispose b x.1; Ok (m2, x.2)).
Proof.
  intros Ha Hb Hne Hhandler.
  rewrite (context_dispose_live b m Hb). simpl.
  unfold worker_send, deref. simpl.
  rewrite lookup_delete_ne, Ha by done. simpl.
  destruct (Context_Scope (context r)) as [ctx|]; [|done]. simpl.
  destruct (recv r) as [f|] eqn:Hf; simpl.
  - destruct (Hhandler f eq_refl) as [Hscope Hkeeps].
    assert (Call ctx f msg (with_heap (delete b) m)
            = (λ x, (with_heap (delete b) x.1, x.2)) <$> Call ctx f msg m)
      as Hcall.
    { destruct f as [home [g|i]]; unfold Call; simpl in *.
      - change (js (isolate (with_heap (delete b) m))) with (js (isolate m)).
        apply run_guest_delete; [by apply Hkeeps|done].
      - rewrite call_native_delete by done.
        by destruct (call_native i _ m) as [[m1 v1]|]. }
    rewrite Hcall.
    destruct (Call ctx f msg m) as [[m1 [v|tc]]|] eqn:Hrun; simpl; [| |done].
    + apply Call_effect in Hrun as (_ & Hh & _).
      rewrite context_dispose_live; [done|].
      specialize (Hh b). destruct Hb as [rb Hb]. rewrite Hb in Hh.
      destruct (heap m1 !! b); [eauto|done].
    + apply Call_effect in Hrun as (_ & Hh & _).
      rewrite context_dispose_live; [done|]. simpl.
      specialize (Hh b). destruct Hb as [rb Hb]. rewrite Hb in Hh.
      destruct (heap m1 !! b); [eauto|done].
  - by rewrite context_dispose_live.
Qed.

(** X17. A handler outlives the context it was created in.  Let the
    handler of a live context A be a function that was created in a scope
    resolving to another live context B, and let it begin by calling
    [$send] or [$sendSync] with a string.  A message sent to A is then
    delivered to the host through B's callback with B's data pointer; and
    once B is disposed, sending to A - which is live and was never
    disposed - reads B's freed record. *)
Theorem handler_outlives_its_context (m : machine JS) (a b : addr)
    (ra rb : context_s) (sa sb : scope_id) (g : fn) (msg s : string)
    (rest : list value) (k : value → guest JS) :
  heap m !! a = Some ra →
  context ra = Some sa →
  recv ra = Some {| CreationContext := sb; code := FGuest g |} →
  context_of_scope m sb = Some b →
  heap m !! b = Some rb →
  a ≠ b →
  (Function_Call (js (isolate m)) g msg = GCallNative NSend (VString s :: rest) k →
     Call sa {| CreationContext := sb; code := FGuest g |} msg m
     = run_guest sb (k VUndefined)
         (with_host (λ h, h ++ [HostRecv (cb rb) s (data rb)]) m)
     ∧ (m1 ← context_dispose b m; worker_send a msg m1) = Crash UseAfterFree)
  ∧ (Function_Call (js (isolate m)) g msg
     = GCallNative NSendSync (VString s :: rest) k →
     Call sa {| CreationContext := sb; code := FGuest g |} msg m
     = run_guest sb (k (VString (host_reply (host m) (req_cb rb) s (data rb))))
         (with_host (λ h, h ++ [HostRecvSync (req_cb rb) s (data rb)]) m)
     ∧ (m1 ← context_dispose b m; worker_send a msg m1) = Crash UseAfterFree).
Proof.
  intros Ha Hsa Hrecv Hsb Hb Hne.
  assert (context_dispose b m = Ok (with_heap (delete b) m)) as Hdis
    by (apply context_dispose_live; eauto).
  split; intros Hcode; (split;
    [unfold Call; simpl; rewrite Hcode; simpl;
     unfold Send, SendSync, calling_context, arg, deref; simpl;
     by rewrite Hsb, Hb
    |rewrite Hdis; simpl; unfold worker_send, deref; simpl;
     rewrite lookup_delete_ne, Ha by done; simpl; rewrite Hsa; simpl;
     rewrite Hrecv; unfold Call; simpl; rewrite Hcode; simpl;
     unfold Send, SendSync, calling_context, arg, deref; simpl;
     change (context_of_scope (with_heap (delete b) m) sb)
       with (context_of_scope m sb);
     by rewrite Hsb, lookup_delete_eq]).
Qed.

(** ** What a failure leaves behind *)

Lemma ExceptionString_ends (try_catch : TryCatch) :
  ∃ body, ExceptionString try_catch = body +:+ newline.
Proof.
  unfold ExceptionString. destruct (GetMessage try_catch) as [message|].
  - destruct (decide _); by eexists.
  - by eexists.
Qed.

Lemma line_not_empty (body : string) : body +:+ newline ≠ "".
Proof. by destruct body. Qed.

(** X14. A status other than 0 always comes with a text.  [worker_load]
    and [worker_send] return 0, 1 or 2 and nothing else; when the status
    is not 0 the last-exception slot read afterwards is not empty - it is
    a report ending in a newline, or, for [worker_send] returning 1, the
    fixed text, in which case the handler was not run and nothing but the
    slot has changed. *)
Theorem failure_leaves_text :
  (∀ (m m' : machine JS) c name_s source_s status,
     worker_load c name_s source_s m = Ok (m', status) →
     (status = 0 ∨ status = 1 ∨ status = 2)
     ∧ (status ≠ 0 →
          worker_last_exception m' ≠ ""
          ∧ ∃ body, worker_last_exception m' = body +:+ newline))
  ∧ (∀ (m m' : machine JS) c msg status,
     worker_send c msg m = Ok (m', status) →
     (status = 0 ∨ status = 1 ∨ status = 2)
     ∧ (status ≠ 0 → worker_last_exception m' ≠ "")
     ∧ (status = 1 →
          m' = with_worker (set_last_exception "$recv not called") m)
     ∧ (status = 2 → ∃ body, worker_last_exception m' = body +:+ newline)).
Proof.
  split.
  - intros m m' c name_s source_s status. unfold worker_load. intros Hrun.
    destruct (deref m (Some c)) as [r|]; [|done]. simpl in Hrun.
    destruct (Context_Scope (context r)) as [ctx|]; [|done]. simpl in Hrun.
    destruct (Script_Compile _ _ _) as [script|tc].
    + destruct (run_guest ctx script m) as [[m1 [v|tc]]|];
        simpl in Hrun; simplify_eq.
      * split; [by left|done].
      * split; [by right; right|]. intros _.
        destruct (ExceptionString_ends tc) as [body Hbody].
        unfold worker_last_exception. simpl. rewrite Hbody.
        split; [apply line_not_empty|by eexists].
    + simplify_eq. split; [by right; left|]. intros _.
      destruct (ExceptionString_ends tc) as [body Hbody].
      unfold worker_last_exception. simpl. rewrite Hbody.
      split; [apply line_not_empty|by eexists].
  - intros m m' c msg status. unfold worker_send. intros Hrun.
    destruct (deref m (Some c)) as [r|]; [|done]. simpl in Hrun.
    destruct (Context_Scope (context r)) as [ctx|]; [|done]. simpl in Hrun.
    destruct (recv r) as [f|].
    + destruct (Call ctx f msg m) as [[m1 [v|tc]]|];
        simpl in Hrun; simplify_eq.
      * split; [by left|]. done.
      * split; [by right; right|].
        destruct (ExceptionString_ends tc) as [body Hbody].
        unfold worker_last_exception. simpl. rewrite Hbody.
        split; [intros _; apply line_not_empty|]. split; [done|by eexists].
    + simplify_eq. split; [by right; left|].
      split; [done|]. split; [done|]. done.
Qed.

End Coverage.

(** ** The array buffer allocator *)

Lemma memset_loop (c : Z) (k : nat) (bytes : list Z) :
  (k ≤ List.length bytes)%nat →
  foldl (λ acc i, <[Z.to_nat i := c]> acc) bytes (seqZ 0 (Z.of_nat k))
  = replicate k c ++ drop k bytes.
Proof.
  induction k as [|k IH]; intros Hk.
  - by rewrite drop_0.
  - rewrite seqZ_S, foldl_app, IH by lia. simpl.
    rewrite Z.add_0_l, Nat2Z.id.
    destruct (lookup_lt_is_Some_2 bytes k) as [y Hy]; [lia|].
    rewrite (drop_S _ _ _ Hy).
    rewrite insert_app_r_alt by (rewrite length_replicate; lia).
    rewrite length_replicate, Nat.sub_diag. simpl.
    by rewrite cons_middle, app_assoc, <- replicate_S_end.
Qed.

Lemma memset_block (data c length : Z) (bytes : list Z) (h : c_heap) :
  0 ≤ length →
  List.length bytes = Z.to_nat length →
  memset data c length (<[data := bytes]> h)
  = <[data := replicate (Z.to_nat length) c]> h.
Proof.
  intros Hlength Hbytes. unfold memset, for_loop, c_heap in *.
  rewrite alter_insert_eq. f_equal.
  rewrite Z.sub_0_r, <- (Z2Nat.id length) at 1 by done.
  rewrite memset_loop by lia.
  by rewrite <- Hbytes, drop_all, app_nil_r.
Qed.

Section AllocatorProperties.
Variable malloc : c_heap → Z → option (Z * list Z).

(** X15. [Allocate] hands out zeroed memory or nothing: when [malloc]
    fails it returns [NULL] and leaves the heap alone; otherwise it
    returns the block [malloc] gave with every one of its [length] bytes
    set to 0, whatever they were, and writes to no other block. *)
Theorem Allocate_zero_filled (length : Z) (h : c_heap) :
  0 ≤ length →
  malloc_ok malloc h length →
  (malloc h length = None → Allocate malloc length h = (NULL, h))
  ∧ (∀ base bytes,
       malloc h length = Some (base, bytes) →
       Allocate malloc length h
       = (base, <[base := replicate (Z.to_nat length) 0]> h)).
Proof.
  intros Hlength Hmalloc. unfold Allocate, AllocateUninitialized. split.
  - intros ->. done.
  - intros base bytes Hblock. rewrite Hblock.
    destruct (Hmalloc _ _ Hblock) as (Hbase & _ & Hbytes).
    destruct (decide (base = NULL)) as [|_]; [done|].
    by rewrite memset_block.
Qed.

(** X16. Freeing what [Allocate] returned, a block or [NULL], gives back
    the heap there was before the allocation. *)
Theorem Allocate_Free_round_trip (length : Z) (h : c_heap) :
  0 ≤ length →
  malloc_ok malloc h length →
  Free (Allocate malloc length h).1 length (Allocate malloc length h).2 = h.
Proof.
  intros Hlength Hmalloc. unfold Free, free, Allocate, AllocateUninitialized.
  unfold c_heap in *.
  destruct (malloc h length) as [[base bytes]|] eqn:Hblock; [|done].
  destruct (Hmalloc _ _ Hblock) as (Hbase & Hfresh & Hbytes).
  destruct (decide (base = NULL)) as [|_]; [done|]. simpl.
  destruct (decide (base = NULL)) as [|_]; [done|].
  rewrite memset_block by done. unfold c_heap.
  rewrite delete_insert_eq.
  by apply delete_id.
Qed.

End AllocatorProperties.

(** * The model at work *)

Example demo_setup_ok : demo_setup = Ok (demo_machine, (demo_a, demo_b, demo_c)).
Proof. vm_compute. reflexivity. Qed.

Lemma demo_machine_a :
  heap demo_machine !! demo_a
  = Some {| id := 0; data := 100; context := Some 1%positive;
            cb := 10%nat; req_cb := 20%nat;
            recv := Some {| CreationContext := 1%positive;
                            code := FGuest 3%nat |};
            recv_sync_handler := Some {| CreationContext := 1%positive;
                                         code := FGuest 4%nat |} |}.
Proof. vm_compute. reflexivity. Defined.

Lemma demo_machine_b :
  heap demo_machine !! demo_b
  = Some {| id := 1; data := 101; context := Some 2%positive;
            cb := 11%nat; req_cb := 21%nat;
            recv := Some {| CreationContext := 2%positive;
                            code := FGuest 1%nat |};
            recv_sync_handler := Some {| CreationContext := 2%positive;
                                         code := FGuest 2%nat |} |}.
Proof. vm_compute. reflexivity. Defined.

Lemma demo_machine_c :
  heap demo_machine !! demo_c
  = Some {| id := 2; data := 102; context := Some 3%positive;
            cb := 12%nat; req_cb := 22%nat;
            recv := None; recv_sync_handler := None |}.
Proof. vm_compute. reflexivity. Defined.

Lemma ExceptionString_layout_witness :
  (GetMessage demo_boom = None
   ∧ ExceptionString demo_boom = "boom" +:+ newline)
  ∧ (GetMessage (demo_syntax_error "a.js" "var = ;")
     = Some {| ResourceName := VString "a.js"; GetLineNumber := 1;
               GetSourceLine := VString "var = ;";
               GetStartColumn := 4; GetEndColumn := 7 |}
     ∧ is_int32 1
     ∧ ExceptionString (demo_syntax_error "a.js" "var = ;")
       = "a.js:1" +:+ newline +:+ "var = ;" +:+ newline
         +:+ "    ^^^" +:+ newline
         +:+ "SyntaxError: Unexpected token ;" +:+ newline).
Proof.
  split.
  - split; [reflexivity|].
    apply (proj1 (ExceptionString_layout demo_boom)). reflexivity.
  - split; [reflexivity|]. split; [unfold is_int32, INT32_MIN, INT32_MAX; lia|].
    rewrite (proj2 (ExceptionString_layout (demo_syntax_error "a.js" "var = ;"))
               _ eq_refl).
    + reflexivity.
    + unfold is_int32, INT32_MIN, INT32_MAX. simpl. lia.
Defined.

Lemma worker_load_status_witness :
  worker_load demo_c "c.js" "var = ;" demo_machine
  = Ok (with_worker
          (set_last_exception
             ("c.js:1" +:+ newline +:+ "var = ;" +:+ newline +:+ "    ^^^"
              +:+ newline +:+ "SyntaxError: Unexpected token ;" +:+ newline))
          demo_machine, 1)
  ∧ worker_load demo_c "c.js" "throw 'boom'" demo_machine
    = Ok (with_worker (set_last_exception ("boom" +:+ newline))
            (with_isolate (set_js 3%nat) demo_machine), 2)
  ∧ worker_load demo_c "c.js" "1 + 1" demo_machine
    = Ok (with_isolate (set_js 3%nat) demo_machine, 0).
Proof.
  split; [|split].
  - exact (proj1 (worker_load_status demo_machine demo_c _ _ "c.js" "var = ;"
                    demo_machine_c eq_refl) _ eq_refl).
  - exact (proj1 (proj2 (worker_load_status demo_machine demo_c _ _ "c.js"
                           "throw 'boom'" demo_machine_c eq_refl))
             _ _ _ eq_refl eq_refl).
  - exact (proj1 (proj2 (proj2 (worker_load_status demo_machine demo_c _ _
                                  "c.js" "1 + 1" demo_machine_c eq_refl)))
             _ _ VUndefined eq_refl eq_refl).
Defined.

Lemma worker_send_status_witness :
  (worker_send demo_c "ping" demo_machine
   = Ok (with_worker (set_last_exception "$recv not called") demo_machine, 1)
   ∧ worker_last_exception
       (state_of (worker_send demo_c "ping" demo_machine))
     = "$recv not called")
  ∧ (worker_send demo_a "ping" demo_machine
     = Ok (with_worker (set_last_exception ("boom" +:+ newline))
             (with_isolate (set_js 3%nat) demo_machine), 2)
     ∧ worker_last_exception
         (state_of (worker_send demo_a "ping" demo_machine))
       = "boom" +:+ newline)
  ∧ (worker_send demo_b "ping" demo_failed
     = Ok (with_host (λ _, [HostRecv 11%nat "ping" 101])
             (with_isolate (set_js 3%nat) demo_failed), 0)
     ∧ worker_last_exception
         (state_of (worker_send demo_b "ping" demo_failed))
       = "earlier failure").
Proof.
  assert (Call 1%positive {| CreationContext := 1%positive; code := FGuest 3%nat |}
            "ping" demo_machine
          = Ok (with_isolate (set_js 3%nat) demo_machine, Thrown demo_boom))
    as Hthrows by (vm_compute; reflexivity).
  assert (Call 2%positive {| CreationContext := 2%positive; code := FGuest 1%nat |}
            "ping" demo_failed
          = Ok (with_host (λ _, [HostRecv 11%nat "ping" 101])
                  (with_isolate (set_js 3%nat) demo_failed), Normal (VInt32 7)))
    as Hreturns by (vm_compute; reflexivity).
  split; [|split].
  - destruct (proj1 (worker_send_status demo_machine demo_c _ 3%positive "ping"
                       demo_machine_c eq_refl) eq_refl)
      as (m' & Hsend & Hslot & ->).
    split; [exact Hsend|]. rewrite Hsend. exact Hslot.
  - destruct (proj1 (proj2 (worker_send_status demo_machine demo_a _ 1%positive
                              "ping" demo_machine_a eq_refl))
                _ _ _ eq_refl Hthrows)
      as (m' & Hsend & Hslot & ->).
    split; [exact Hsend|]. rewrite Hsend. exact Hslot.
  - destruct (proj1 (proj2 (proj2 (worker_send_status demo_failed demo_b _
                                     2%positive "ping" demo_machine_b
                                     eq_refl)))
                _ _ _ eq_refl Hreturns)
      as [Hsend Hslot].
    split; [exact Hsend|]. rewrite Hsend. exact Hslot.
Defined.

(** C4 fails on the code.  Every return of [worker_sendSync] is
    [out.c_str()] of its local [out]: the reply - the text for a missing
    handler, the text for a value that is not a string, the handler's own
    string - is handed back as a pointer into a destroyed string, and
    reading it is a use after free; and a handler that throws is not
    caught: the call ends the process instead of returning. *)
Theorem worker_sendSync_reply_dangles :
  (worker_sendSync demo_c "abc" demo_machine
   = Ok (demo_machine, Dangling "err: $recvSync not called")
   ∧ c_str_read (Dangling "err: $recvSync not called") = Crash UseAfterFree)
  ∧ (worker_sendSync demo_a "abc" demo_machine
     = Ok (with_isolate (set_js 3%nat) demo_machine,
           Dangling "err: non-string return value")
     ∧ c_str_read (Dangling "err: non-string return value")
       = Crash UseAfterFree)
  ∧ (worker_sendSync demo_b "abc" demo_machine
     = Ok (with_isolate (set_js 3%nat) demo_machine, Dangling "re: abc")
     ∧ c_str_read (Dangling "re: abc") = Crash UseAfterFree)
  ∧ (snd <$> worker_load demo_c "c.js" "$recvSync(f3)" demo_machine = Ok 0
     ∧ worker_sendSync demo_c "abc" demo_thrower = Crash EmptyHandle).
Proof. repeat split; vm_compute; reflexivity. Qed.

Lemma natives_assert_argument_types_witness :
  (IsFunction (VInt32 42) = false
   ∧ run_guest 3%positive
       (GCallNative NRecv [VInt32 42] (λ _, demo_return 2 VUndefined))
       demo_machine = Crash AssertionFailed
   ∧ run_guest 3%positive
       (GCallNative NRecvSync [VInt32 42] (λ _, demo_return 2 VUndefined))
       demo_machine = Crash AssertionFailed)
  ∧ (IsString (VInt32 42) = false
     ∧ run_guest 3%positive
         (GCallNative NSend [VInt32 42] (λ _, demo_return 2 VUndefined))
         demo_machine = Crash AssertionFailed
     ∧ run_guest 3%positive
         (GCallNative NSendSync [VInt32 42] (λ _, demo_return 2 VUndefined))
         demo_machine = Crash AssertionFailed).
Proof.
  destruct (natives_assert_argument_types 3%positive [VInt32 42]
              (λ _, demo_return 2 VUndefined) demo_machine) as [Hf Hs].
  split.
  - split; [reflexivity|]. exact (Hf eq_refl).
  - split; [reflexivity|]. exact (Hs eq_refl).
Defined.

Lemma last_exception_frame_witness :
  run_host demo_calls demo_failed
  = Ok (state_of (run_host demo_calls demo_failed),
        [SyncReply (Dangling "err: $recvSync not called");
         Reply "earlier failure"; Status 0; Status 0;
         SyncReply (Dangling "err: non-string return value")])
  ∧ worker_last_exception (state_of (run_host demo_calls demo_failed))
    = "earlier failure".
Proof.
  assert (run_host demo_calls demo_failed
          = Ok (state_of (run_host demo_calls demo_failed),
                [SyncReply (Dangling "err: $recvSync not called");
                 Reply "earlier failure"; Status 0; Status 0;
                 SyncReply (Dangling "err: non-string return value")]))
    as Hrun by (vm_compute; reflexivity).
  split; [exact Hrun|].
  refine (proj2 (proj2 (proj2 (proj2 last_exception_frame)))
            demo_calls demo_failed _ _ Hrun _).
  repeat constructor.
Defined.

Lemma context_ids_dense_unique_witness :
  run_lifecycle demo_lifecycle (worker_new 0 0%nat)
  = Ok (state_of (run_lifecycle demo_lifecycle (worker_new 0 0%nat)),
        [(1%positive, 0); (2%positive, 1); (3%positive, 2)])
  ∧ [(1%positive, 0); (2%positive, 1); (3%positive, 2)].*2 = seqZ 0 3
  ∧ NoDup [(1%positive, 0); (2%positive, 1); (3%positive, 2)].*2
  ∧ contextIndex
      (worker (state_of (run_lifecycle demo_lifecycle (worker_new 0 0%nat)))) = 3.
Proof.
  assert (run_lifecycle demo_lifecycle (worker_new 0 0%nat)
          = Ok (state_of (run_lifecycle demo_lifecycle (worker_new 0 0%nat)),
                [(1%positive, 0); (2%positive, 1); (3%positive, 2)]))
    as Hrun by (vm_compute; reflexivity).
  split; [exact Hrun|].
  destruct (context_ids_dense_unique 0 0%nat demo_lifecycle _ _ Hrun)
    as (Hids & Hnodup & Hcount & _).
  split; [exact Hids|]. split; [exact Hnodup|]. exact Hcount.
Defined.

Lemma context_dispose_effect_witness :
  ∃ m', context_dispose demo_c demo_machine = Ok m'
    ∧ heap m' !! demo_c = None
    ∧ (∀ p, p ≠ demo_c → heap m' !! p = heap demo_machine !! p)
    ∧ worker m' = worker demo_machine
    ∧ isolate m' = isolate demo_machine
    ∧ (∀ i, contexts (worker demo_machine) !! i = Some demo_c →
         contexts (worker m') !! i = Some demo_c).
Proof. exact (context_dispose_effect demo_machine demo_c _ demo_machine_c). Defined.

(** C2 fails as stated: after [context_dispose] the registry still maps
    the id of the freed record to its address. *)
Lemma context_dispose_keeps_registry_entry :
  context_dispose demo_c demo_machine = Ok (with_heap (delete demo_c) demo_machine)
  ∧ id <$> heap demo_machine !! demo_c = Some 2
  ∧ heap (with_heap (delete demo_c) demo_machine) !! demo_c = None
  ∧ contexts (worker (with_heap (delete demo_c) demo_machine)) !! 2 = Some demo_c.
Proof. repeat split; vm_compute; reflexivity. Qed.

Lemma context_new_effect_witness :
  contextIndex (worker demo_machine) ≠ INT32_MAX
  ∧ ∃ m' c ctx,
    context_new 13%nat 23%nat 103 demo_machine = Ok (m', c)
    ∧ heap demo_machine !! c = None
    ∧ heap m' !! c
      = Some {| id := 3; data := 103; context := Some ctx;
                cb := 13%nat; req_cb := 23%nat;
                recv := None; recv_sync_handler := None |}
    ∧ contextIndex (worker m') = 4
    ∧ Object_Get (Global m' ctx) "$context" = VInt32 3
    ∧ Object_Get (Global (assign_global ctx "$context" (VInt32 0) m') ctx)
        "$context" = VInt32 0.
Proof.
  assert (contextIndex (worker demo_machine) ≠ INT32_MAX) as Hmax
    by (vm_compute; discriminate).
  split; [exact Hmax|].
  destruct (context_new_effect 13%nat 23%nat 103 demo_machine Hmax)
    as (m' & c & ctx & Hnew & Hfresh & Hrec & Hnext & _ & _ & Hglobal & Hwrite).
  exists m', c, ctx. split; [exact Hnew|]. split; [exact Hfresh|].
  split; [exact Hrec|]. split; [exact Hnext|].
  split; [rewrite Hglobal; reflexivity|]. exact (Hwrite (VInt32 0)).
Defined.

(** C5 fails as stated: the id is an ordinary property of the global
    object, and guest code that assigns it changes its value. *)
Lemma context_identity_is_writable :
  context_new 10%nat 20%nat 100 (worker_new 0 0%nat)
  = Ok (state_of (context_new 10%nat 20%nat 100 (worker_new 0 0%nat)), 1%positive)
  ∧ context <$> heap (state_of (context_new 10%nat 20%nat 100 (worker_new 0 0%nat)))
                  !! 1%positive
    = Some (Some 1%positive)
  ∧ Object_Get
      (Global (state_of (context_new 10%nat 20%nat 100 (worker_new 0 0%nat)))
         1%positive) "$context"
    = VInt32 0
  ∧ Object_Get
      (Global
         (state_of
            (worker_load 1%positive "a.js" "$context = 7"
               (state_of (context_new 10%nat 20%nat 100 (worker_new 0 0%nat)))))
         1%positive) "$context"
    = VInt32 7
  ∧ snd <$> worker_load 1%positive "a.js" "$context = 7"
              (state_of (context_new 10%nat 20%nat 100 (worker_new 0 0%nat)))
    = Ok 0.
Proof. repeat split; vm_compute; reflexivity. Qed.

Lemma registration_isolated_witness :
  context_of_scope demo_machine 1%positive = Some demo_a
  ∧ demo_a ≠ demo_b
  ∧ keeps_identity demo_polite
  ∧ run_guest 1%positive demo_polite
      (with_handlers demo_b (None, None) demo_machine)
    = (λ r, (with_handlers demo_b (None, None) r.1, r.2))
        <$> run_guest 1%positive demo_polite demo_machine
  ∧ run_guest 1%positive demo_polite demo_machine
    = Ok (state_of (run_guest 1%positive demo_polite demo_machine),
          Normal VUndefined)
  ∧ recv <$> heap (state_of (run_guest 1%positive demo_polite demo_machine))
               !! demo_a
    = Some (Some {| CreationContext := 1%positive; code := FGuest 1%nat |})
  ∧ heap (state_of (run_guest 1%positive demo_polite demo_machine)) !! demo_b
    = heap demo_machine !! demo_b.
Proof.
  assert (context_of_scope demo_machine 1%positive = Some demo_a) as HA
    by (vm_compute; reflexivity).
  assert (demo_a ≠ demo_b) as Hne by discriminate.
  assert (keeps_identity demo_polite) as Hkeeps.
  { simpl. split; [discriminate|]. intros; exact I. }
  assert (run_guest 1%positive demo_polite demo_machine
          = Ok (state_of (run_guest 1%positive demo_polite demo_machine),
                Normal VUndefined)) as Hrun by (vm_compute; reflexivity).
  destruct (registration_isolated 1%positive demo_polite demo_machine
              demo_a demo_b HA Hne Hkeeps) as [Hcommute Hframe].
  split; [exact HA|]. split; [exact Hne|]. split; [exact Hkeeps|].
  split; [exact (Hcommute (None, None))|].
  split; [exact Hrun|].
  split; [vm_compute; reflexivity|].
  exact (proj1 (Hframe _ _ Hrun)).
Defined.

(** C1 fails as stated: guest code of the first context assigns its own
    [$context] global the id of the second and calls [$recv]; the handler
    the second context had registered is replaced. *)
Lemma registration_crosses_contexts :
  snd <$> worker_load demo_a "a.js" "$context = 1; $recv(f3)" demo_machine = Ok 0
  ∧ id <$> heap demo_machine !! demo_a = Some 0
  ∧ id <$> heap demo_machine !! demo_b = Some 1
  ∧ recv <$> heap demo_machine !! demo_b
    = Some (Some {| CreationContext := 2%positive; code := FGuest 1%nat |})
  ∧ recv <$> heap (state_of (worker_load demo_a "a.js" "$context = 1; $recv(f3)"
                               demo_machine)) !! demo_b
    = Some (Some {| CreationContext := 1%positive; code := FGuest 3%nat |}).
Proof. repeat split; vm_compute; reflexivity. Qed.

(** ** More of the binding at work *)

Lemma demo_machine_scope_b : context_of_scope demo_machine 2%positive = Some demo_b.
Proof. vm_compute. reflexivity. Defined.

Lemma demo_machine_scope_c : context_of_scope demo_machine 3%positive = Some demo_c.
Proof. vm_compute. reflexivity. Defined.

Lemma demo_machine_not_full : contextIndex (worker demo_machine) ≠ INT32_MAX.
Proof. vm_compute. discriminate. Defined.

Lemma demo_session_run :
  run_host demo_session (worker_new 0 0%nat)
  = Ok (demo_session_state,
        [Created 1%positive; Created 2%positive; Status 0; Disposed;
         Created 3%positive]).
Proof. vm_compute. reflexivity. Defined.

Lemma foldr_max_ge (l : list Z) :
  0 ≤ foldr Z.max 0 l ∧ ∀ x, x ∈ l → x ≤ foldr Z.max 0 l.
Proof.
  induction l as [|y l [IH0 IH]]; simpl.
  - split; [lia|]. intros x Hx. by apply elem_of_nil in Hx.
  - split; [lia|]. intros x [->|Hx]%elem_of_cons; [lia|].
    specialize (IH x Hx). lia.
Qed.

(** The example [malloc] keeps the promise of the C library. *)
Lemma demo_malloc_ok (h : c_heap) (length : Z) : malloc_ok demo_malloc h length.
Proof.
  intros base bytes Hblock. unfold demo_malloc in Hblock.
  destruct (decide (0 ≤ length ≤ 64)) as [Hlength|]; [|done].
  injection Hblock as <- <-.
  destruct (foldr_max_ge (elements (dom h))) as [H0 Hmax].
  split; [unfold NULL; lia|]. split; [|by rewrite length_replicate].
  apply not_elem_of_dom. intros Hin%elem_of_elements%Hmax. lia.
Qed.

Lemma guest_code_frame_witness :
  run_guest 1%positive demo_polite demo_machine
  = Ok (demo_polite_run, Normal VUndefined)
  ∧ worker demo_polite_run = worker demo_machine
  ∧ dom (heap demo_polite_run) = dom (heap demo_machine)
  ∧ (∀ p a, heap demo_machine !! p = Some a →
       ∃ b, heap demo_polite_run !! p = Some b
         ∧ same_but_handlers a b
         ∧ (is_Some (recv a) → is_Some (recv b))
         ∧ (is_Some (recv_sync_handler a) → is_Some (recv_sync_handler b)))
  ∧ (∃ out, stdout demo_polite_run = stdout demo_machine +:+ out)
  ∧ (∃ calls, host demo_polite_run = host demo_machine ++ calls).
Proof.
  assert (run_guest 1%positive demo_polite demo_machine
          = Ok (demo_polite_run, Normal VUndefined)) as Hrun
    by (vm_compute; reflexivity).
  split; [exact Hrun|].
  exact (guest_code_frame 1%positive demo_polite demo_machine demo_polite_run
           (Normal VUndefined) Hrun).
Defined.

Lemma registry_never_shrinks_witness :
  run_host demo_session (worker_new 0 0%nat)
  = Ok (demo_session_state,
        [Created 1%positive; Created 2%positive; Status 0; Disposed;
         Created 3%positive])
  ∧ run_host demo_session_rest demo_session_state
    = Ok (state_of (run_host demo_session_rest demo_session_state),
          [Status 1; Disposed; Created 4%positive])
  ∧ (∀ i, is_Some (contexts (worker demo_session_state) !! i) ↔ 0 ≤ i < 3)
  ∧ (∀ i p, contexts (worker demo_session_state) !! i = Some p →
       contexts (worker (state_of (run_host demo_session_rest demo_session_state)))
         !! i = Some p).
Proof.
  assert (run_host demo_session_rest demo_session_state
          = Ok (state_of (run_host demo_session_rest demo_session_state),
                [Status 1; Disposed; Created 4%positive])) as Hrest
    by (vm_compute; reflexivity).
  split; [exact demo_session_run|]. split; [exact Hrest|].
  exact (registry_never_shrinks 0 0%nat demo_session demo_session_rest
           demo_session_state _ _ _ demo_session_run Hrest).
Defined.

Lemma live_contexts_registered_witness :
  run_host demo_session (worker_new 0 0%nat)
  = Ok (demo_session_state,
        [Created 1%positive; Created 2%positive; Status 0; Disposed;
         Created 3%positive])
  ∧ 0 ≤ contextIndex (worker demo_session_state) ≤ INT32_MAX
  ∧ (∀ p r, heap demo_session_state !! p = Some r →
       contexts (worker demo_session_state) !! id r = Some p
       ∧ 0 ≤ id r < contextIndex (worker demo_session_state)
       ∧ ∃ scope, context r = Some scope
           ∧ is_Some (globals (isolate demo_session_state) !! scope))
  ∧ (∀ p q rp rq, heap demo_session_state !! p = Some rp →
       heap demo_session_state !! q = Some rq →
       id rp = id rq → p = q).
Proof.
  split; [exact demo_session_run|].
  exact (live_contexts_registered 0 0%nat demo_session demo_session_state _
           demo_session_run).
Defined.

Lemma context_new_frame_witness :
  contextIndex (worker demo_machine) ≠ INT32_MAX
  ∧ ∃ m' c,
    context_new 13%nat 23%nat 103 demo_machine = Ok (m', c)
    ∧ (∀ p r, heap demo_machine !! p = Some r → heap m' !! p = Some r)
    ∧ contexts (worker demo_machine) ⊆ contexts (worker m')
    ∧ (∀ s o, globals (isolate demo_machine) !! s = Some o →
         globals (isolate m') !! s = Some o)
    ∧ last_exception (worker m') = last_exception (worker demo_machine)
    ∧ stdout m' = stdout demo_machine
    ∧ host m' = host demo_machine.
Proof.
  split; [exact demo_machine_not_full|].
  exact (context_new_frame 13%nat 23%nat 103 demo_machine demo_machine_not_full).
Defined.

Lemma new_context_outbound_routes_witness :
  contextIndex (worker demo_machine) ≠ INT32_MAX
  ∧ contexts (worker demo_machine) !! contextIndex (worker demo_machine) = None
  ∧ ∃ m' c ctx,
    context_new 13%nat 23%nat 103 demo_machine = Ok (m', c)
    ∧ context <$> heap m' !! c = Some (Some ctx)
    ∧ context_of_scope m' ctx = Some c
    ∧ run_guest ctx
        (GCallNative NSend [VString "out"] (λ _, demo_return 2 VUndefined)) m'
      = Ok (with_isolate (set_js 3%nat)
              (with_host (λ h, h ++ [HostRecv 13%nat "out" 103]) m'),
            Normal VUndefined)
    ∧ run_guest ctx (GCallNative NSendSync [VString "out"] (demo_return 2)) m'
      = Ok (with_isolate (set_js 3%nat)
              (with_host (λ h, h ++ [HostRecvSync 23%nat "out" 103]) m'),
            Normal (VString "ack: out")).
Proof.
  assert (contexts (worker demo_machine) !! contextIndex (worker demo_machine)
          = None) as Hfree by (vm_compute; reflexivity).
  split; [exact demo_machine_not_full|]. split; [exact Hfree|].
  destruct (new_context_outbound_routes 13%nat 23%nat 103 demo_machine
              demo_machine_not_full Hfree)
    as (m' & c & ctx & Hnew & Hrec & Hscope & Hsend & Hsync).
  exists m', c, ctx. split; [exact Hnew|]. split; [exact Hrec|].
  split; [exact Hscope|]. split.
  - rewrite Hsend. reflexivity.
  - rewrite Hsync. reflexivity.
Defined.

Lemma fresh_context_has_no_handlers_witness :
  contextIndex (worker demo_machine) ≠ INT32_MAX
  ∧ ∃ m' c,
    context_new 13%nat 23%nat 103 demo_machine = Ok (m', c)
    ∧ (∃ m'', worker_send c "ping" m' = Ok (m'', 1)
         ∧ worker_last_exception m'' = "$recv not called"
         ∧ heap m'' = heap m' ∧ isolate m'' = isolate m'
         ∧ contexts (worker m'') = contexts (worker m')
         ∧ contextIndex (worker m'') = contextIndex (worker m')
         ∧ stdout m'' = stdout m' ∧ host m'' = host m')
    ∧ worker_sendSync c "ping" m'
      = Ok (m', Dangling "err: $recvSync not called").
Proof.
  split; [exact demo_machine_not_full|].
  exact (fresh_context_has_no_handlers 13%nat 23%nat 103 "ping" demo_machine
           demo_machine_not_full).
Defined.

Lemma handlers_stay_registered_witness :
  run_host demo_calls demo_machine
  = Ok (state_of (run_host demo_calls demo_machine),
        [SyncReply (Dangling "err: $recvSync not called"); Reply ""; Status 0;
         Status 0; SyncReply (Dangling "err: non-string return value")])
  ∧ (Dispose demo_b ∉ demo_calls)
  ∧ ∃ b, heap (state_of (run_host demo_calls demo_machine)) !! demo_b = Some b
      ∧ same_but_handlers
          {| id := 1; data := 101; context := Some 2%positive;
             cb := 11%nat; req_cb := 21%nat;
             recv := Some {| CreationContext := 2%positive;
                             code := FGuest 1%nat |};
             recv_sync_handler := Some {| CreationContext := 2%positive;
                                          code := FGuest 2%nat |} |} b
      ∧ is_Some (recv b)
      ∧ is_Some (recv_sync_handler b).
Proof.
  assert (run_host demo_calls demo_machine
          = Ok (state_of (run_host demo_calls demo_machine),
                [SyncReply (Dangling "err: $recvSync not called"); Reply "";
                 Status 0; Status 0;
                 SyncReply (Dangling "err: non-string return value")])) as Hrun
    by (vm_compute; reflexivity).
  assert (Dispose demo_b ∉ demo_calls) as Hkept.
  { unfold demo_calls.
    repeat (apply not_elem_of_cons; split; [discriminate|]).
    apply not_elem_of_nil. }
  split; [exact Hrun|]. split; [exact Hkept|].
  destruct (handlers_stay_registered demo_calls demo_machine _ _ demo_b _
              Hrun Hkept demo_machine_b) as (b & Hb & Hsame & Hrecv & Hsync).
  exists b. split; [exact Hb|]. split; [exact Hsame|].
  split; [apply Hrecv | apply Hsync]; simpl; eauto.
Defined.

Lemma use_after_dispose_faults_witness :
  ∃ m', context_dispose demo_c demo_machine = Ok m'
    ∧ worker_load demo_c "c.js" "1 + 1" m' = Crash UseAfterFree
    ∧ worker_send demo_c "ping" m' = Crash UseAfterFree
    ∧ worker_sendSync demo_c "ping" m' = Crash UseAfterFree
    ∧ context_dispose demo_c m' = Crash UseAfterFree.
Proof.
  exact (use_after_dispose_faults demo_machine demo_c _ "c.js" "1 + 1" "ping"
           demo_machine_c).
Defined.

Lemma dispose_commutes_with_send_witness :
  is_Some (heap demo_machine !! demo_c)
  ∧ demo_b ≠ demo_c
  ∧ context_of_scope demo_machine 2%positive ≠ Some demo_c
  ∧ keeps_identity (Function_Call (js (isolate demo_machine)) 1%nat "ping")
  ∧ (m1 ← context_dispose demo_c demo_machine; worker_send demo_b "ping" m1)
    = (x ← worker_send demo_b "ping" demo_machine;
       m2 ← context_dispose demo_c x.1; Ok (m2, x.2))
  ∧ (m1 ← context_dispose demo_c demo_machine; worker_send demo_b "ping" m1)
    = Ok (with_heap (delete demo_c)
            (with_host (λ _, [HostRecv 11%nat "ping" 101])
               (with_isolate (set_js 3%nat) demo_machine)), 0).
Proof.
  assert (is_Some (heap demo_machine !! demo_c)) as Hlive
    by (rewrite demo_machine_c; eauto).
  assert (demo_b ≠ demo_c) as Hne by discriminate.
  assert (context_of_scope demo_machine 2%positive ≠ Some demo_c) as Hscope
    by (rewrite demo_machine_scope_b; discriminate).
  assert (keeps_identity (Function_Call (js (isolate demo_machine)) 1%nat "ping"))
    as Hkeeps by (intros v; exact I).
  split; [exact Hlive|]. split; [exact Hne|]. split; [exact Hscope|].
  split; [exact Hkeeps|]. split.
  - apply (dispose_commutes_with_send demo_machine demo_b demo_c _ "ping"
             demo_machine_b Hlive Hne).
    intros f [= <-]. split; [exact Hscope|]. intros g [= <-]. exact Hkeeps.
  - vm_compute. reflexivity.
Defined.

Lemma demo_crossed_a :
  heap demo_crossed !! demo_a
  = Some {| id := 0; data := 100; context := Some 1%positive;
            cb := 10%nat; req_cb := 20%nat;
            recv := Some {| CreationContext := 2%positive;
                            code := FGuest 1%nat |};
            recv_sync_handler := Some {| CreationContext := 1%positive;
                                         code := FGuest 4%nat |} |}.
Proof. vm_compute. reflexivity. Defined.

Lemma demo_crossed_b :
  heap demo_crossed !! demo_b
  = Some {| id := 1; data := 101; context := Some 2%positive;
            cb := 11%nat; req_cb := 21%nat;
            recv := Some {| CreationContext := 2%positive;
                            code := FGuest 1%nat |};
            recv_sync_handler := Some {| CreationContext := 2%positive;
                                         code := FGuest 2%nat |} |}.
Proof. vm_compute. reflexivity. Defined.

Lemma handler_outlives_its_context_witness :
  snd <$> worker_load demo_b "b.js" "$context = 0; $recv(f1); $context = 1"
            demo_machine = Ok 0
  ∧ context_of_scope demo_crossed 2%positive = Some demo_b
  ∧ demo_a ≠ demo_b
  ∧ worker_send demo_a "ping" demo_crossed
    = Ok (with_host (λ _, [HostRecv 11%nat "ping" 101])
            (with_isolate (set_js 4%nat) demo_crossed), 0)
  ∧ (m1 ← context_dispose demo_b demo_crossed; worker_send demo_a "ping" m1)
    = Crash UseAfterFree.
Proof.
  assert (context_of_scope demo_crossed 2%positive = Some demo_b) as Hscope
    by (vm_compute; reflexivity).
  assert (demo_a ≠ demo_b) as Hne by discriminate.
  split; [vm_compute; reflexivity|]. split; [exact Hscope|].
  split; [exact Hne|]. split; [vm_compute; reflexivity|].
  exact (proj2 (proj1 (handler_outlives_its_context demo_crossed demo_a demo_b
                         _ _ 1%positive 2%positive 1%nat "ping" "ping" []
                         (λ _, demo_return 3 (VInt32 7))
                         demo_crossed_a eq_refl eq_refl Hscope demo_crossed_b
                         Hne) eq_refl)).
Defined.

Lemma failure_leaves_text_witness :
  worker_load demo_c "c.js" "var = ;" demo_machine = Ok (demo_broken, 1)
  ∧ worker_last_exception demo_broken ≠ ""
  ∧ ∃ body, worker_last_exception demo_broken = body +:+ newline.
Proof.
  assert (worker_load demo_c "c.js" "var = ;" demo_machine = Ok (demo_broken, 1))
    as Hload by (vm_compute; reflexivity).
  split; [exact Hload|].
  apply (proj1 failure_leaves_text demo_machine demo_broken demo_c "c.js"
           "var = ;" 1 Hload).
  discriminate.
Defined.

Lemma Allocate_zero_filled_witness :
  malloc_ok demo_malloc demo_heap 4
  ∧ Allocate demo_malloc 4 demo_heap = (6, <[6 := [0; 0; 0; 0]]> demo_heap)
  ∧ malloc_ok demo_malloc demo_heap 100
  ∧ Allocate demo_malloc 100 demo_heap = (NULL, demo_heap).
Proof.
  split; [apply demo_malloc_ok|]. split.
  - apply (proj2 (Allocate_zero_filled demo_malloc 4 demo_heap ltac:(lia)
                    (demo_malloc_ok demo_heap 4)) 6 [170; 170; 170; 170]).
    vm_compute. reflexivity.
  - split; [apply demo_malloc_ok|].
    apply (proj1 (Allocate_zero_filled demo_malloc 100 demo_heap ltac:(lia)
                    (demo_malloc_ok demo_heap 100))).
    vm_compute. reflexivity.
Defined.

Lemma Allocate_Free_round_trip_witness :
  malloc_ok demo_malloc demo_heap 4
  ∧ (Allocate demo_malloc 4 demo_heap).1 = 6
  ∧ Free 6 4 (Allocate demo_malloc 4 demo_heap).2 = demo_heap.
Proof.
  split; [apply demo_malloc_ok|]. split; [vm_compute; reflexivity|].
  exact (Allocate_Free_round_trip demo_malloc 4 demo_heap ltac:(lia)
           (demo_malloc_ok demo_heap 4)).
Defined.
